(** * The Cheshire Cat: conversation pipeline, memory recall and tool index

    A shallow embedding of [core/cat/looking_glass/cheshire_cat.py]:
    - [embed_tools] (lines 250-297), the tool index synchronisation;
    - [recall_relevant_memories_to_working_memory] (lines 299-378);
    - [__call__], the pipeline (lines 453-595);
    - [load_natural_language], [get_language_model] and
      [get_language_embedder] (lines 95-235), the selection of the models;
    - [send_ws_message] (lines 410-451).

    Python values are modelled as follows.  A [str] is the list of its
    code points.  A dict with a fixed set of keys is a record; every key
    has a value in the record, the pipeline writes each key before it
    reads it.  Floats that the code only carries around (timestamps,
    scores, the 0.7 threshold) are rationals.  An exception value stands
    for an instance of [Exception], the class the two [except] clauses
    of [__call__] catch.

    The effects of the code are the mutation of the cat's state (plugins'
    tools, vector collections, working memories), the exceptions, and the
    calls to collaborators that live outside this module (hooks, embedder,
    vector search, agent, rabbit hole).  They are modelled by a monad [M]
    that threads a [world], returns a [result] and emits the [event]s of
    the collaborator calls in the order they are made.  Logging calls
    ([log.info], [log.warning], [log.error]) have no effect on any of
    these and are left out. *)

From Stdlib Require Import List NArith Arith Bool Lia QArith.
From Stdlib Require String Ascii.
Import ListNotations.
Import String.StringSyntax.
Close Scope Q_scope.
Open Scope nat_scope.
Open Scope list_scope.

(** ** Python strings *)

Module PyStr.

Definition char := N.
Definition str := list char.

(** A string literal of the source, as its code points. *)
Definition py (s : String.string) : str :=
  map Ascii.N_of_ascii (String.list_ascii_of_string s).

Definition char_eqb (a b : char) : bool := N.eqb a b.

Fixpoint str_eqb (a b : str) : bool :=
  match a, b with
  | [], [] => true
  | x :: a', y :: b' => char_eqb x y && str_eqb a' b'
  | _, _ => false
  end.

(** [c.isspace()] for a one-character string: the code points that Python
    classifies as whitespace (general category Zs, or bidirectional class
    WS, B or S). *)
Definition isspace (c : char) : bool :=
  (((9 <=? c) && (c <=? 13)) || ((28 <=? c) && (c <=? 32))
   || (c =? 133) || (c =? 160) || (c =? 5760)
   || ((8192 <=? c) && (c <=? 8202))
   || (c =? 8232) || (c =? 8233) || (c =? 8239) || (c =? 8287)
   || (c =? 12288))%N.

(** [s.startswith(p)] *)
Fixpoint startswith (p s : str) : bool :=
  match p, s with
  | [], _ => true
  | _ :: _, [] => false
  | x :: p', y :: s' => char_eqb x y && startswith p' s'
  end.

(** [sub in s] *)
Fixpoint contains (sub s : str) : bool :=
  startswith sub s ||
  match s with
  | [] => false
  | _ :: s' => contains sub s'
  end.

(** [x in l] for a list of strings *)
Definition str_in (x : str) (l : list str) : bool := existsb (str_eqb x) l.

(** [s.replace(old, new)] scans from the left and replaces the
    non-overlapping occurrences of [old].  [skip] counts the characters of
    a matched occurrence that are still to be passed over. *)
Fixpoint replace_from (old new : str) (skip : nat) (s : str) : str :=
  match s with
  | [] => []
  | c :: s' =>
      match skip with
      | S k => replace_from old new k s'
      | O =>
          if startswith old s
          then new ++ replace_from old new (length old - 1) s'
          else c :: replace_from old new 0 s'
      end
  end.

Definition replace (s old new : str) : str :=
  match old with
  | [] => new ++ flat_map (fun c => c :: new) s
  | _ :: _ => replace_from old new 0 s
  end.

(** [s[i]]; the callers index inside the string. *)
Definition char_at (s : str) (i : nat) : char := nth i s 0%N.

End PyStr.
Import PyStr.

Open Scope string_scope.


(** ** Data model *)

Definition timestamp := Q.
Definition vector := list Q.
Definition point_id := N.

(** [MAX_TEXT_INPUT = 500] (line 31) *)
Definition MAX_TEXT_INPUT : nat := 500.

(** An instance of [Exception]: its class name and [str(e)]. *)
Record exn := { exn_class : str; exn_message : str }.

(** The three vector collections, in the order of
    [self.memory.vectors.collections.keys()]. *)
Inductive tier := Episodic | Declarative | Procedural.

(** A plugin tool: the attributes [embed_tools] reads. *)
Record tool := {
  tool_name : str;
  tool_description : str;
  tool_docstring : str
}.

(** The metadata dict of a stored text: [{"source": .., "when": ..}] for an
    episodic entry, with ["name"] and ["docstring"] for a tool. *)
Record metadata := {
  md_source : str;
  md_when : timestamp;
  md_name : option str;
  md_docstring : option str
}.

Record document := {
  page_content : str;
  doc_metadata : metadata
}.

(** A persisted point of a collection: [t.id] and [t.payload]. *)
Record point := {
  pt_id : point_id;
  payload : document
}.

(** A recalled memory, the tuple [(document, score, vector, id)]. *)
Record memory := {
  mem_doc : document;
  mem_score : Q;
  mem_vector : vector;
  mem_id : point_id
}.

(** The per-collection recall configuration dict (lines 335-354);
    [metadata] is [None] or a filter such as [{"source": user_id}]. *)
Record recall_config := {
  embedding : vector;
  k : nat;
  threshold : Q;
  metadata_filter : option (list (str * str))
}.

(** The inbound message dict: ["text"] and the optional ["user_id"]. *)
Record message := {
  text : str;
  user_id : option str
}.

(** What the agent returns: ["input"], ["intermediate_steps"], ["output"]. *)
Record cat_message := {
  cm_input : str;
  cm_intermediate_steps : list (str * str);
  cm_output : str
}.

(** An entry of a memory report (lines 570-572):
    [dict(d[0]) | {"score": float(d[1]), "id": d[3]}]. *)
Record report_entry := {
  rep_page_content : str;
  rep_metadata : metadata;
  rep_score : Q;
  rep_id : point_id
}.

Record memory_report := {
  rep_episodic : list report_entry;
  rep_declarative : list report_entry;
  rep_procedural : list report_entry
}.

(** [final_output["why"]] *)
Record why_block := {
  why_input : str;
  why_intermediate_steps : list (str * str);
  why_memory : memory_report
}.

(** [final_output] (lines 574-587) *)
Record chat_output := {
  out_type : str;
  out_user_id : str;
  content : str;
  why : why_block
}.

(** The error dict of lines 528-532. *)
Record error_output := {
  err_type : str;
  err_name : str;
  err_description : str
}.

(** What [__call__] returns. *)
Inductive output :=
| ErrorOutput (e : error_output)
| ChatOutput (o : chat_output).

(** A turn of the conversation history. *)
Record turn := {
  who : str;
  turn_message : str;
  turn_why : option why_block;
  turn_when : timestamp
}.

(** The working memory of one user: the dict keys the pipeline uses. *)
Record working_memory := {
  wm_user_id : str;
  user_message_json : message;
  recall_query : option str;
  episodic_memories : list memory;
  declarative_memories : list memory;
  procedural_memories : list memory;
  history : list turn
}.

(** One vector collection: its points and the source of fresh ids. *)
Record collection := {
  points : list point;
  next_id : point_id
}.

(** [self.memory.vectors] *)
Record vector_memory := {
  episodic : collection;
  declarative : collection;
  procedural : collection
}.

(** The state of the cat that the modelled methods read and write. *)
Record world := {
  tools : list tool;                                 (* self.mad_hatter.tools *)
  vectors : vector_memory;                           (* self.memory.vectors *)
  working_memory_list : list (str * working_memory); (* self.working_memory_list *)
  ticks : nat                                        (* readings of the clock so far *)
}.

(** The hook calls, with the payload each is given. *)
Inductive hook_call :=
| before_cat_reads_message (m : message)
| cat_recall_query (q : str)
| before_cat_recalls_memories
| before_cat_recalls_episodic_memories (c : recall_config)
| before_cat_recalls_declarative_memories (c : recall_config)
| before_cat_recalls_procedural_memories (c : recall_config)
| after_cat_recalls_memories
| before_cat_sends_message (o : chat_output).

(** The calls that leave this module.  A hook and the agent are given the
    session's working memory, as it is when they are called. *)
Inductive event :=
| EvHook (h : hook_call) (wm : working_memory)
| EvEmbedQuery (q : str)
| EvRecall (t : tier) (c : recall_config)
| EvStringToDocs (txt content_type : str)
| EvStoreDocuments (docs : list document) (source : str)
| EvExecuteAgent (wm : working_memory)
| EvGetAllPoints (t : tier)
| EvAddTexts (t : tier) (texts : list str) (metadatas : list metadata)
| EvDelete (t : tier) (points_selector : list point_id).

(** ** The monad of the pipeline *)

Inductive result (A : Type) :=
| Ok (a : A)
| Raise (e : exn).
Arguments Ok {A} a.
Arguments Raise {A} e.

(** A computation runs from a world, emits events, ends with a value or an
    exception, and leaves a world.  The world reached when an exception is
    raised is kept: Python does not undo mutations. *)
Definition M (A : Type) : Type := world -> list event * result A * world.

Definition ret {A} (a : A) : M A := fun w => ([], Ok a, w).

Definition raise {A} (e : exn) : M A := fun w => ([], Raise e, w).

Definition bind {A B} (m : M A) (f : A -> M B) : M B :=
  fun w =>
    let '(evs1, r, w1) := m w in
    match r with
    | Ok a => let '(evs2, r2, w2) := f a w1 in (evs1 ++ evs2, r2, w2)
    | Raise e => (evs1, Raise e, w1)
    end.

Declare Scope monad_scope.
Delimit Scope monad_scope with monad.
Notation "x <- m ;; f" := (bind m (fun x => f))
  (at level 100, m at next level, right associativity) : monad_scope.
Notation "m ;; f" := (bind m (fun _ => f))
  (at level 100, right associativity) : monad_scope.
Open Scope monad_scope.

(** [try: m except Exception as e: ...], with the outcome handed to the
    continuation. *)
Definition attempt {A} (m : M A) : M (result A) :=
  fun w => let '(evs, r, w1) := m w in (evs, Ok r, w1).

Definition emit (ev : event) : M unit := fun w => ([ev], Ok tt, w).

Definition gets {A} (f : world -> A) : M A := fun w => ([], Ok (f w), w).

Definition modify (f : world -> world) : M unit := fun w => ([], Ok tt, f w).

(** [for x in l: body(x)] *)
Fixpoint for_each {A} (l : list A) (body : A -> M unit) : M unit :=
  match l with
  | [] => ret tt
  | x :: l' => body x ;; for_each l' body
  end.

(** ** State accessors *)

Definition set_tools (ts : list tool) (w : world) : world :=
  {| tools := ts; vectors := vectors w;
     working_memory_list := working_memory_list w; ticks := ticks w |}.

Definition set_vectors (v : vector_memory) (w : world) : world :=
  {| tools := tools w; vectors := v;
     working_memory_list := working_memory_list w; ticks := ticks w |}.

Definition set_working_memory_list (l : list (str * working_memory)) (w : world) : world :=
  {| tools := tools w; vectors := vectors w;
     working_memory_list := l; ticks := ticks w |}.

Definition set_ticks (n : nat) (w : world) : world :=
  {| tools := tools w; vectors := vectors w;
     working_memory_list := working_memory_list w; ticks := n |}.

(** [getattr(self.memory.vectors, memory_type)] *)
Definition get_collection (t : tier) (v : vector_memory) : collection :=
  match t with
  | Episodic => episodic v
  | Declarative => declarative v
  | Procedural => procedural v
  end.

Definition set_collection (t : tier) (c : collection) (v : vector_memory) : vector_memory :=
  match t with
  | Episodic => {| episodic := c; declarative := declarative v; procedural := procedural v |}
  | Declarative => {| episodic := episodic v; declarative := c; procedural := procedural v |}
  | Procedural => {| episodic := episodic v; declarative := declarative v; procedural := c |}
  end.

Definition set_user_message_json (m : message) (wm : working_memory) : working_memory :=
  {| wm_user_id := wm_user_id wm; user_message_json := m;
     recall_query := recall_query wm;
     episodic_memories := episodic_memories wm;
     declarative_memories := declarative_memories wm;
     procedural_memories := procedural_memories wm;
     history := history wm |}.

(** [wm["user_message_json"]["text"] = txt] *)
Definition set_text (txt : str) (wm : working_memory) : working_memory :=
  set_user_message_json
    {| text := txt; user_id := user_id (user_message_json wm) |} wm.

Definition set_recall_query (q : str) (wm : working_memory) : working_memory :=
  {| wm_user_id := wm_user_id wm; user_message_json := user_message_json wm;
     recall_query := Some q;
     episodic_memories := episodic_memories wm;
     declarative_memories := declarative_memories wm;
     procedural_memories := procedural_memories wm;
     history := history wm |}.

(** [wm[f"{memory_type}_memories"] = memories] *)
Definition set_memories (t : tier) (ms : list memory) (wm : working_memory) : working_memory :=
  {| wm_user_id := wm_user_id wm; user_message_json := user_message_json wm;
     recall_query := recall_query wm;
     episodic_memories :=
       match t with Episodic => ms | _ => episodic_memories wm end;
     declarative_memories :=
       match t with Declarative => ms | _ => declarative_memories wm end;
     procedural_memories :=
       match t with Procedural => ms | _ => procedural_memories wm end;
     history := history wm |}.

Definition set_history (h : list turn) (wm : working_memory) : working_memory :=
  {| wm_user_id := wm_user_id wm; user_message_json := user_message_json wm;
     recall_query := recall_query wm;
     episodic_memories := episodic_memories wm;
     declarative_memories := declarative_memories wm;
     procedural_memories := procedural_memories wm;
     history := h |}.

(** ** The working memory list *)

(** Modelled from the spec: the "new empty" working memory that
    [get_or_create] registers for a user. *)
Definition empty_working_memory (uid : str) : working_memory :=
  {| wm_user_id := uid;
     user_message_json := {| text := []; user_id := None |};
     recall_query := None;
     episodic_memories := [];
     declarative_memories := [];
     procedural_memories := [];
     history := [] |}.

Fixpoint find_wm (uid : str) (l : list (str * working_memory)) : option working_memory :=
  match l with
  | [] => None
  | (u, wm) :: l' => if str_eqb u uid then Some wm else find_wm uid l'
  end.

Fixpoint replace_wm (uid : str) (wm : working_memory)
    (l : list (str * working_memory)) : list (str * working_memory) :=
  match l with
  | [] => [(uid, wm)]
  | (u, x) :: l' =>
      if str_eqb u uid then (u, wm) :: l' else (u, x) :: replace_wm uid wm l'
  end.

(** The working memory object registered for [uid]. *)
Definition wm_of (uid : str) (w : world) : working_memory :=
  match find_wm uid (working_memory_list w) with
  | Some wm => wm
  | None => empty_working_memory uid
  end.

Definition set_wm (uid : str) (wm : working_memory) (w : world) : world :=
  set_working_memory_list (replace_wm uid wm (working_memory_list w)) w.

(** Modelled from the spec: [WorkingMemoryList.get_working_memory]
    (of cat/memory/working_memory.py, outside this module).  The spec's
    [get_or_create(user_id)] "returns the existing instance for user_id or
    creates and registers a new empty one; never fails". *)
Definition get_working_memory (uid : str) : M working_memory :=
  fun w =>
    match find_wm uid (working_memory_list w) with
    | Some wm => ([], Ok wm, w)
    | None =>
        let wm := empty_working_memory uid in
        ([], Ok wm, set_working_memory_list (working_memory_list w ++ [(uid, wm)]) w)
    end.

(** Modelled from the spec: [WorkingMemory.get_user_id] (of
    cat/memory/working_memory.py, outside this module); the working memory
    of the spec carries its [user_id], a "stable key". *)
Definition get_user_id (wm : working_memory) : str := wm_user_id wm.

(** Reads and writes through [session_cat.working_memory]; a session is
    named by the key of its working memory. *)
Definition read_wm (session : str) : M working_memory := gets (wm_of session).

Definition write_wm (session : str) (f : working_memory -> working_memory) : M unit :=
  modify (fun w => set_wm session (f (wm_of session w)) w).

(** A collaborator that is handed the session's working memory and may
    mutate it, also when it raises. *)
Definition on_session {A} (session : str)
    (f : working_memory -> result A * working_memory) : M A :=
  fun w => let '(r, wm') := f (wm_of session w) in ([], r, set_wm session wm' w).

(** ** The vector store *)

(** Modelled from the spec: the vector store (cat/memory/vector_memory.py
    and the storage engine, outside this module).  The spec gives it
    [list_all(collection) -> records], [upsert(texts, metadatas)] and
    [delete(collection, ids)], each "an independent, immediately-committed
    operation", and a persisted record is
    [{point id, description text, metadata}].  An upsert stores one new
    point per text under an id no stored point has. *)
Definition get_all_points (t : tier) : M (list point) :=
  emit (EvGetAllPoints t) ;;
  gets (fun w => points (get_collection t (vectors w))).

(** Modelled from the spec: what [upsert(texts, metadatas)] does to a
    collection; each text gets the next fresh id. *)
Fixpoint store_texts (c : collection) (texts : list str) (metadatas : list metadata)
    : collection :=
  match texts, metadatas with
  | txt :: texts', md :: metadatas' =>
      store_texts
        {| points := points c ++
             [{| pt_id := next_id c;
                 payload := {| page_content := txt; doc_metadata := md |} |}];
           next_id := N.succ (next_id c) |}
        texts' metadatas'
  | _, _ => c
  end.

(** Modelled from the spec: [add_texts], the [upsert(texts, metadatas)] of a
    collection. *)
Definition add_texts (t : tier) (texts : list str) (metadatas : list metadata) : M unit :=
  emit (EvAddTexts t texts metadatas) ;;
  modify (fun w =>
    set_vectors
      (set_collection t (store_texts (get_collection t (vectors w)) texts metadatas)
         (vectors w)) w).

Definition id_in (i : point_id) (ids : list point_id) : bool := existsb (N.eqb i) ids.

(** Modelled from the spec: what [delete(collection, ids)] does to a
    collection; the points under one of the ids go. *)
Definition delete_points (ids : list point_id) (c : collection) : collection :=
  {| points := filter (fun p => negb (id_in (pt_id p) ids)) (points c);
     next_id := next_id c |}.

(** Modelled from the spec: [vector_db.delete], the
    [delete(collection, ids)] of the store. *)
Definition vector_db_delete (collection_name : tier) (points_selector : list point_id)
    : M unit :=
  emit (EvDelete collection_name points_selector) ;;
  modify (fun w =>
    set_vectors
      (set_collection collection_name
         (delete_points points_selector (get_collection collection_name (vectors w)))
         (vectors w)) w).

(** ** Collaborators *)

Definition hook_payload (h : hook_call) : Type :=
  match h with
  | before_cat_reads_message _ => message
  | cat_recall_query _ => str
  | before_cat_recalls_memories => unit
  | before_cat_recalls_episodic_memories _ => recall_config
  | before_cat_recalls_declarative_memories _ => recall_config
  | before_cat_recalls_procedural_memories _ => recall_config
  | after_cat_recalls_memories => unit
  | before_cat_sends_message _ => chat_output
  end.

(** What the cat calls and this module does not define.  A hook and the
    agent are handed the session's working memory; the embedder and the
    vector search answer or raise; the rabbit hole stores documents in the
    declarative collection; [co_augment_tool] is [t.augment_tool(self)],
    which gives a tool its cat; [co_clock n] is what the [n]-th reading of
    [time.time()] returns. *)
Record collaborators := {
  co_execute_hook :
    forall h : hook_call, working_memory -> result (hook_payload h) * working_memory;
  co_embed_query : str -> result vector;
  co_recall_memories_from_embedding :
    tier -> collection -> recall_config -> result (list memory);
  co_execute_agent : working_memory -> result cat_message * working_memory;
  co_string_to_docs : str -> str -> result (list document);
  co_store_documents :
    list document -> str -> collection -> result unit * collection;
  co_augment_tool : tool -> tool;
  co_clock : nat -> timestamp
}.

(** ** The cat *)

Section CheshireCat.

Variable C : collaborators.

(** [self.mad_hatter.execute_hook(name, payload, cat=session_cat)] *)
Definition execute_hook (h : hook_call) (session_cat : str) : M (hook_payload h) :=
  wm <- read_wm session_cat ;;
  emit (EvHook h wm) ;;
  on_session session_cat (co_execute_hook C h).

(** [self.embedder.embed_query(recall_query)] *)
Definition embed_query (q : str) : M vector :=
  emit (EvEmbedQuery q) ;;
  fun w => ([], co_embed_query C q, w).

(** [vector_memory.recall_memories_from_embedding], called with the keys of
    [config] as keyword arguments *)
Definition recall_memories_from_embedding (memory_type : tier) (config : recall_config)
    : M (list memory) :=
  emit (EvRecall memory_type config) ;;
  fun w =>
    ([], co_recall_memories_from_embedding C memory_type
           (get_collection memory_type (vectors w)) config, w).

(** [self.agent_manager.execute_agent(session_cat.working_memory)] *)
Definition execute_agent (session_cat : str) : M cat_message :=
  wm <- read_wm session_cat ;;
  emit (EvExecuteAgent wm) ;;
  on_session session_cat (co_execute_agent C).

(** [self.rabbit_hole.string_to_docs(text, content_type=...)] *)
Definition string_to_docs (txt content_type : str) : M (list document) :=
  emit (EvStringToDocs txt content_type) ;;
  fun w => ([], co_string_to_docs C txt content_type, w).

(** [self.rabbit_hole.store_documents(docs=docs, source=...)] *)
Definition store_documents (docs : list document) (source : str) : M unit :=
  emit (EvStoreDocuments docs source) ;;
  fun w =>
    let '(r, c) := co_store_documents C docs source (declarative (vectors w)) in
    ([], r, set_vectors (set_collection Declarative c (vectors w)) w).

(** [time.time()] *)
Definition time_time : M timestamp :=
  fun w => ([], Ok (co_clock C (ticks w)), set_ticks (S (ticks w)) w).

(** [traceback.print_exc(limit=None, file=None, chain=True)] of Python's
    standard library prints the exception being handled.  Its first
    parameter is [limit]: when it is not [None] the library evaluates
    [limit >= 0], which for an exception instance is a [TypeError]. *)
Definition traceback_print_exc (limit : option (exn + Z)) : M unit :=
  match limit with
  | None => ret tt
  | Some (inr _) => ret tt
  | Some (inl e) =>
      raise {| exn_class := py "TypeError";
               exn_message :=
                 py "'>=' not supported between instances of '"
                 ++ exn_class e ++ py "' and 'int'" |}
  end.

(** *** [embed_tools] (lines 250-297) *)

Definition tool_metadata (now : timestamp) (t : tool) : metadata :=
  {| md_source := py "tool";
     md_when := now;
     md_name := Some (tool_name t);
     md_docstring := Some (tool_docstring t) |}.

Definition embed_tools : M unit :=
  (* 253-255: for t in self.mad_hatter.tools: t.augment_tool(self) *)
  modify (fun w => set_tools (map (co_augment_tool C) (tools w)) w) ;;
  (* 258 *)
  embedded_tools <- get_all_points Procedural ;;
  (* 261-262 *)
  let embedded_tools_ids := map pt_id embedded_tools in
  let embedded_tools_descriptions :=
    map (fun t => page_content (payload t)) embedded_tools in
  (* 265-279 *)
  mad_hatter_tools <- gets tools ;;
  for_each mad_hatter_tools (fun t =>
    if negb (str_in (tool_description t) embedded_tools_descriptions)
    then
      now <- time_time ;;
      add_texts Procedural [tool_description t] [tool_metadata now t]
    else ret tt) ;;
  (* 282 *)
  let mad_hatter_tools_descriptions := map tool_description mad_hatter_tools in
  (* 285-290 *)
  let points_to_be_deleted :=
    map fst
      (filter (fun '(_, descr) => negb (str_in descr mad_hatter_tools_descriptions))
         (combine embedded_tools_ids embedded_tools_descriptions)) in
  (* 293-297 *)
  if 0 <? length points_to_be_deleted
  then vector_db_delete Procedural points_to_be_deleted
  else ret tt.

(** *** [recall_relevant_memories_to_working_memory] (lines 299-378) *)

Definition default_recall_k : nat := 3.
Definition default_recall_threshold : Q := (7 # 10)%Q.

Definition default_episodic_recall_config (recall_query_embedding : vector) (uid : str)
    : recall_config :=
  {| embedding := recall_query_embedding;
     k := default_recall_k;
     threshold := default_recall_threshold;
     metadata_filter := Some [(py "source", uid)] |}.

Definition default_declarative_recall_config (recall_query_embedding : vector)
    : recall_config :=
  {| embedding := recall_query_embedding;
     k := default_recall_k;
     threshold := default_recall_threshold;
     metadata_filter := None |}.

Definition default_procedural_recall_config (recall_query_embedding : vector)
    : recall_config :=
  {| embedding := recall_query_embedding;
     k := default_recall_k;
     threshold := default_recall_threshold;
     metadata_filter := None |}.

(** Modelled from the spec: the keys of [self.memory.vectors.collections]
    (of cat/memory/vector_memory.py, outside this module).  "Tier query order is
    episodic, declarative, procedural (stable, used for result-to-hook zip
    consistency)". *)
Definition memory_types : list tier := [Episodic; Declarative; Procedural].

Definition recall_relevant_memories_to_working_memory (session_cat : str) : M unit :=
  (* 319-320 *)
  wm <- read_wm session_cat ;;
  let uid := get_user_id wm in
  let recall_query := text (user_message_json wm) in
  (* 323 *)
  recall_query <- execute_hook (cat_recall_query recall_query) session_cat ;;
  (* 327-328 *)
  recall_query_embedding <- embed_query recall_query ;;
  write_wm session_cat (set_recall_query recall_query) ;;
  (* 331 *)
  execute_hook before_cat_recalls_memories session_cat ;;
  (* 357-364 *)
  c_episodic <- execute_hook
    (before_cat_recalls_episodic_memories
       (default_episodic_recall_config recall_query_embedding uid)) session_cat ;;
  c_declarative <- execute_hook
    (before_cat_recalls_declarative_memories
       (default_declarative_recall_config recall_query_embedding)) session_cat ;;
  c_procedural <- execute_hook
    (before_cat_recalls_procedural_memories
       (default_procedural_recall_config recall_query_embedding)) session_cat ;;
  let recall_configs := [c_episodic; c_declarative; c_procedural] in
  (* 366: memory_types = self.memory.vectors.collections.keys() *)
  (* 368-375 *)
  for_each (combine recall_configs memory_types) (fun '(config, memory_type) =>
    memories <- recall_memories_from_embedding memory_type config ;;
    write_wm session_cat (set_memories memory_type memories)) ;;
  (* 378 *)
  execute_hook after_cat_recalls_memories session_cat.

(** *** [__call__] (lines 453-595) *)

(** The loop of lines 504-507, entered with [index] and [char = text[index]]. *)
Fixpoint scan_back (txt : str) (index : nat) : nat :=
  if isspace (char_at txt index) then index
  else
    match index with
    | O => O
    | S i => scan_back txt i
    end.

(** Lines 503-509: where a text longer than [MAX_TEXT_INPUT] is cut. *)
Definition split_index (txt : str) : nat :=
  let index := scan_back txt MAX_TEXT_INPUT in
  if index <=? 0 then MAX_TEXT_INPUT else index.

(** Lines 502-512. *)
Definition split_oversized_text (session_cat : str) : M unit :=
  wm <- read_wm session_cat ;;
  let txt := text (user_message_json wm) in
  if MAX_TEXT_INPUT <? length txt then
    let index := split_index txt in
    let to_declarative_memory := skipn index txt in
    write_wm session_cat (set_text (firstn index txt)) ;;
    docs <- string_to_docs to_declarative_memory (py "text/plain") ;;
    store_documents docs (py "")
  else ret tt.

Definition parse_error_marker : str := py "Could not parse LLM output: `".

(** Line 548. *)
Definition unparsable_llm_output (error_description : str) : str :=
  replace (replace error_description parse_error_marker (py "")) (py "`") (py "").

(** Lines 549-553: the result made up when the agent's output could not be
    parsed. *)
Definition fallback_cat_message (wm : working_memory) (error_description : str)
    : cat_message :=
  {| cm_input := text (user_message_json wm);
     cm_intermediate_steps := [];
     cm_output := unparsable_llm_output error_description |}.

(** Lines 570-572. *)
Definition memory_report_of (ms : list memory) : list report_entry :=
  map (fun d =>
         {| rep_page_content := page_content (mem_doc d);
            rep_metadata := doc_metadata (mem_doc d);
            rep_score := mem_score d;
            rep_id := mem_id d |}) ms.

(** Lines 570-587. *)
Definition build_final_output (uid : str) (cm : cat_message) (wm : working_memory)
    : chat_output :=
  {| out_type := py "chat";
     out_user_id := uid;
     content := cm_output cm;
     why :=
       {| why_input := cm_input cm;
          why_intermediate_steps := cm_intermediate_steps cm;
          why_memory :=
            {| rep_episodic := memory_report_of (episodic_memories wm);
               rep_declarative := memory_report_of (declarative_memories wm);
               rep_procedural := memory_report_of (procedural_memories wm) |} |} |}.

(** Modelled from the spec: [WorkingMemory.update_conversation_history]
    (of cat/memory/working_memory.py, outside this module).  The spec's
    conversation history is an "ordered sequence of turns; each turn =
    {speaker role, message text, optional rationale/why payload,
    timestamp}", "append-only". *)
Definition update_conversation_history (session_cat : str) (speaker message_text : str)
    (why_payload : option why_block) : M unit :=
  now <- time_time ;;
  write_wm session_cat (fun wm =>
    set_history
      (history wm ++
         [{| who := speaker; turn_message := message_text;
             turn_why := why_payload; turn_when := now |}]) wm).

Definition episodic_metadata (uid : str) (now : timestamp) : metadata :=
  {| md_source := uid; md_when := now; md_name := None; md_docstring := None |}.

(** Lines 534-595: from the agent to the returned output. *)
Definition reply_with_agent (uid session_cat : str) : M output :=
  (* 535-553 *)
  r <- attempt (execute_agent session_cat) ;;
  cat_message <-
    match r with
    | Ok cm => ret cm
    | Raise e =>
        let error_description := exn_message e in
        if negb (contains parse_error_marker error_description)
        then raise e
        else
          wm <- read_wm session_cat ;;
          ret (fallback_cat_message wm error_description)
    end ;;
  (* 558 *)
  wm <- read_wm session_cat ;;
  let user_message := text (user_message_json wm) in
  (* 563-566 *)
  now <- time_time ;;
  add_texts Episodic [user_message] [episodic_metadata uid now] ;;
  (* 570-587 *)
  wm <- read_wm session_cat ;;
  let final_output := build_final_output uid cat_message wm in
  (* 589 *)
  final_output <- execute_hook (before_cat_sends_message final_output) session_cat ;;
  (* 592-593 *)
  update_conversation_history session_cat (py "Human") user_message None ;;
  update_conversation_history session_cat (py "AI") (content final_output)
    (Some (why final_output)) ;;
  (* 595 *)
  ret (ChatOutput final_output).

Definition vector_memory_error : error_output :=
  {| err_type := py "error";
     err_name := py "VectorMemoryError";
     err_description :=
       py "You probably changed Embedder and old vector memory is not compatible. "
       ++ py "Please delete `core/long_term_memory` folder." |}.

(** Lines 515-595: the recall under its [try], then the reply. *)
Definition recall_and_reply (uid session_cat : str) : M output :=
  r <- attempt (recall_relevant_memories_to_working_memory session_cat) ;;
  match r with
  | Raise e =>
      (* 519-532 *)
      traceback_print_exc (Some (inl e)) ;;
      ret (ErrorOutput vector_memory_error)
  | Ok _ => reply_with_agent uid session_cat
  end.

(** Lines 478-512: from the inbound message to the text the recall reads. *)
Definition read_message (incoming : message) (uid : str) : M unit :=
  (* 479-481 *)
  get_working_memory uid ;;
  write_wm uid (set_user_message_json {| text := text incoming; user_id := Some uid |}) ;;
  (* 486-491: session_cat is the session of this working memory *)
  let session_cat := uid in
  (* 494-498 *)
  wm <- read_wm session_cat ;;
  m <- execute_hook (before_cat_reads_message (user_message_json wm)) session_cat ;;
  write_wm session_cat (set_user_message_json m) ;;
  (* 502-512 *)
  split_oversized_text session_cat.

Definition __call__ (incoming : message) : M output :=
  (* 478 *)
  let uid := match user_id incoming with Some u => u | None => py "user" end in
  read_message incoming uid ;;
  recall_and_reply uid uid.

End CheshireCat.

(** ** The cut as the specification words it *)

(** "The last whitespace boundary at or before the threshold": the largest
    index up to [n] that holds a whitespace, if there is one. *)
Fixpoint last_whitespace_upto (txt : str) (n : nat) : option nat :=
  if isspace (char_at txt n) then Some n
  else
    match n with
    | O => None
    | S i => last_whitespace_upto txt i
    end.

(** "If none exists, fall back to a hard cut at the threshold." *)
Definition spec_split_index (txt : str) : nat :=
  match last_whitespace_upto txt MAX_TEXT_INPUT with
  | Some i => i
  | None => MAX_TEXT_INPUT
  end.

(** ** Vocabulary of the statements *)

(** The [cat_message] the pipeline goes on with once the agent has answered
    [ra] and left the working memory [wm]: the agent's own result, or the
    fallback when it raised with the parse error marker in its message. *)
Definition agent_yields (ra : result cat_message) (wm : working_memory)
    (cm : cat_message) : Prop :=
  match ra with
  | Ok cm' => cm = cm'
  | Raise e =>
      contains parse_error_marker (exn_message e) = true /\
      cm = fallback_cat_message wm (exn_message e)
  end.

(** The world once [txt] is stored in the episodic collection. *)
Definition with_episodic_text (txt : str) (md : metadata) (w : world) : world :=
  set_vectors
    (set_collection Episodic (store_texts (episodic (vectors w)) [txt] [md]) (vectors w))
    w.

(** The two turns that lines 592-593 append. *)
Definition human_turn (user_message : str) (now : timestamp) : turn :=
  {| who := py "Human"; turn_message := user_message;
     turn_why := None; turn_when := now |}.

Definition ai_turn (final_output : chat_output) (now : timestamp) : turn :=
  {| who := py "AI"; turn_message := content final_output;
     turn_why := Some (why final_output); turn_when := now |}.

Definition backtick : char := 96%N.

Definition not_backtick (c : char) : bool := negb (char_eqb backtick c).



(** The hooks of the recall stage. *)
Definition recall_hook (h : hook_call) : bool :=
  match h with
  | before_cat_reads_message _ | before_cat_sends_message _ => false
  | _ => true
  end.

(** The calls [recall_relevant_memories_to_working_memory] makes. *)
Definition recall_event (ev : event) : bool :=
  match ev with
  | EvHook h _ => recall_hook h
  | EvEmbedQuery _ | EvRecall _ _ => true
  | _ => false
  end.

(** The conversation history is "owned by the pipeline's finalization
    step": the hooks and the agent leave it as they find it. *)
Definition collaborators_keep_history (C : collaborators) : Prop :=
  (forall h wm, history (snd (co_execute_hook C h wm)) = history wm) /\
  (forall wm, history (snd (co_execute_agent C wm)) = history wm).

(** The description a persisted tool record holds. *)
Definition point_description (p : point) : str := page_content (payload p).

(** The live tools that [embed_tools] finds no record for, and the records
    it finds no live tool for. *)
Definition missing_tools (embedded_descriptions : list str) (ts : list tool) : list tool :=
  filter (fun t => negb (str_in (tool_description t) embedded_descriptions)) ts.

Definition stale_points (live_descriptions : list str) (pts : list point) : list point :=
  filter (fun p => negb (str_in (point_description p) live_descriptions)) pts.

(** The upserts made for the tools [ts], the first at the [n]-th reading of
    the clock, and the points they create, the first under the id [i]. *)
Fixpoint tool_upserts (C : collaborators) (n : nat) (ts : list tool) : list event :=
  match ts with
  | [] => []
  | t :: ts' =>
      EvAddTexts Procedural [tool_description t] [tool_metadata (co_clock C n) t]
      :: tool_upserts C (S n) ts'
  end.

Fixpoint tool_points (C : collaborators) (i : point_id) (n : nat) (ts : list tool)
    : list point :=
  match ts with
  | [] => []
  | t :: ts' =>
      {| pt_id := i;
         payload := {| page_content := tool_description t;
                       doc_metadata := tool_metadata (co_clock C n) t |} |}
      :: tool_points C (N.succ i) (S n) ts'
  end.

Definition with_tool_points (C : collaborators) (c : collection) (n : nat)
    (ts : list tool) : collection :=
  {| points := points c ++ tool_points C (next_id c) n ts;
     next_id := (next_id c + N.of_nat (length ts))%N |}.

(** The ids of a collection are pairwise distinct and below the next fresh
    id. *)
Definition wf_collection (c : collection) : Prop :=
  NoDup (map pt_id (points c)) /\
  forall p, In p (points c) -> (pt_id p < next_id c)%N.

(** The parts of a run. *)
Definition events_of {A} (x : list event * result A * world) : list event :=
  fst (fst x).

Definition outcome {A} (x : list event * result A * world) : result A :=
  snd (fst x).

Definition world_after {A} (x : list event * result A * world) : world :=
  snd x.

(** A computation that leaves the conversation history of session [s] as
    it finds it, however it ends. *)
Definition keeps_history {A} (s : str) (m : M A) : Prop :=
  forall w, history (wm_of s (world_after (m w))) = history (wm_of s w).

(** The reply text of a returned chat output. *)
Definition returned_content (r : result output) : option str :=
  match r with
  | Ok (ChatOutput o) => Some (content o)
  | _ => None
  end.

(** The texts a collection holds, oldest first. *)
Definition stored_texts (c : collection) : list str :=
  map (fun p => page_content (payload p)) (points c).

Definition is_add_texts (ev : event) : bool :=
  match ev with EvAddTexts _ _ _ => true | _ => false end.

Definition is_delete (ev : event) : bool :=
  match ev with EvDelete _ _ => true | _ => false end.

Definition is_execute_agent (ev : event) : bool :=
  match ev with EvExecuteAgent _ => true | _ => false end.


(** ** Concrete collaborators and worlds *)

Module Scenario.

(** No plugin is installed: every hook hands its payload back. *)
Definition no_plugins (h : hook_call) (wm : working_memory)
    : result (hook_payload h) * working_memory :=
  match h return result (hook_payload h) * working_memory with
  | before_cat_reads_message m => (Ok m, wm)
  | cat_recall_query q => (Ok q, wm)
  | before_cat_recalls_memories => (Ok tt, wm)
  | before_cat_recalls_episodic_memories c => (Ok c, wm)
  | before_cat_recalls_declarative_memories c => (Ok c, wm)
  | before_cat_recalls_procedural_memories c => (Ok c, wm)
  | after_cat_recalls_memories => (Ok tt, wm)
  | before_cat_sends_message o => (Ok o, wm)
  end.

Definition plain_metadata : metadata :=
  {| md_source := []; md_when := 0%Q; md_name := None; md_docstring := None |}.

(** An agent that answers "Hello". *)
Definition hello_agent (wm : working_memory) : result cat_message * working_memory :=
  (Ok {| cm_input := text (user_message_json wm);
         cm_intermediate_steps := [];
         cm_output := py "Hello" |}, wm).

Definition with_agent (a : working_memory -> result cat_message * working_memory)
    (c : collaborators) : collaborators :=
  {| co_execute_hook := co_execute_hook c;
     co_embed_query := co_embed_query c;
     co_recall_memories_from_embedding := co_recall_memories_from_embedding c;
     co_execute_agent := a;
     co_string_to_docs := co_string_to_docs c;
     co_store_documents := co_store_documents c;
     co_augment_tool := co_augment_tool c;
     co_clock := co_clock c |}.

Definition with_hooks
    (h : forall h : hook_call, working_memory -> result (hook_payload h) * working_memory)
    (c : collaborators) : collaborators :=
  {| co_execute_hook := h;
     co_embed_query := co_embed_query c;
     co_recall_memories_from_embedding := co_recall_memories_from_embedding c;
     co_execute_agent := co_execute_agent c;
     co_string_to_docs := co_string_to_docs c;
     co_store_documents := co_store_documents c;
     co_augment_tool := co_augment_tool c;
     co_clock := co_clock c |}.

Definition with_recall
    (r : tier -> collection -> recall_config -> result (list memory))
    (c : collaborators) : collaborators :=
  {| co_execute_hook := co_execute_hook c;
     co_embed_query := co_embed_query c;
     co_recall_memories_from_embedding := r;
     co_execute_agent := co_execute_agent c;
     co_string_to_docs := co_string_to_docs c;
     co_store_documents := co_store_documents c;
     co_augment_tool := co_augment_tool c;
     co_clock := co_clock c |}.

(** Collaborators that all answer: no plugin, a constant embedding, an
    empty search result, the "Hello" agent, one document per ingested
    text, a clock that counts its readings. *)
Definition quiet : collaborators :=
  {| co_execute_hook := no_plugins;
     co_embed_query := fun _ => Ok [1%Q];
     co_recall_memories_from_embedding := fun _ _ _ => Ok [];
     co_execute_agent := hello_agent;
     co_string_to_docs :=
       fun txt _ => Ok [{| page_content := txt; doc_metadata := plain_metadata |}];
     co_store_documents :=
       fun docs _ c =>
         (Ok tt, store_texts c (map page_content docs) (map doc_metadata docs));
     co_augment_tool := fun t => t;
     co_clock := fun n => inject_Z (Z.of_nat n) |}.

Definition empty_collection : collection := {| points := []; next_id := 0%N |}.

Definition empty_world : world :=
  {| tools := [];
     vectors := {| episodic := empty_collection;
                   declarative := empty_collection;
                   procedural := empty_collection |};
     working_memory_list := [];
     ticks := 0 |}.

(** A world in which the session [uid] holds the message text [txt]. *)
Definition world_with_text (uid txt : str) : world :=
  set_wm uid (set_text txt (empty_working_memory uid)) empty_world.

Definition user : str := py "user".

Definition hi_world : world := world_with_text user (py "hi").

(** The failure langchain raises on the model output [hello world]. *)
Definition hello_world_failure : exn :=
  {| exn_class := py "OutputParserException";
     exn_message := py "Could not parse LLM output: `hello world`" |}.

(** The same for the model output [a`b], which holds a backtick. *)
Definition backtick_failure : exn :=
  {| exn_class := py "OutputParserException";
     exn_message := py "Could not parse LLM output: `a`b`" |}.

(** The same for a model output that quotes the marker:
    [x Could not parse LLM output: `y]. *)
Definition quoted_marker_failure : exn :=
  {| exn_class := py "OutputParserException";
     exn_message :=
       py "Could not parse LLM output: `x Could not parse LLM output: `y`" |}.

Definition cat_failing_with (e : exn) : collaborators :=
  with_agent (fun wm => (Raise e, wm)) quiet.

Definition boom : exn := {| exn_class := py "ValueError"; exn_message := py "boom" |}.

(** A plugin whose [cat_recall_query] hook raises. *)
Definition recall_query_hook_raises (h : hook_call) (wm : working_memory)
    : result (hook_payload h) * working_memory :=
  match h return result (hook_payload h) * working_memory with
  | before_cat_reads_message m => (Ok m, wm)
  | cat_recall_query q => (Raise boom, wm)
  | before_cat_recalls_memories => (Ok tt, wm)
  | before_cat_recalls_episodic_memories c => (Ok c, wm)
  | before_cat_recalls_declarative_memories c => (Ok c, wm)
  | before_cat_recalls_procedural_memories c => (Ok c, wm)
  | after_cat_recalls_memories => (Ok tt, wm)
  | before_cat_sends_message o => (Ok o, wm)
  end.

(** A plugin whose [before_cat_sends_message] hook raises. *)
Definition send_hook_raises (h : hook_call) (wm : working_memory)
    : result (hook_payload h) * working_memory :=
  match h return result (hook_payload h) * working_memory with
  | before_cat_reads_message m => (Ok m, wm)
  | cat_recall_query q => (Ok q, wm)
  | before_cat_recalls_memories => (Ok tt, wm)
  | before_cat_recalls_episodic_memories c => (Ok c, wm)
  | before_cat_recalls_declarative_memories c => (Ok c, wm)
  | before_cat_recalls_procedural_memories c => (Ok c, wm)
  | after_cat_recalls_memories => (Ok tt, wm)
  | before_cat_sends_message o => (Raise boom, wm)
  end.

(** A vector search that fails, as after a change of embedder. *)
Definition search_fails : tier -> collection -> recall_config -> result (list memory) :=
  fun _ _ _ =>
    Raise {| exn_class := py "ValueError"; exn_message := py "shapes not aligned" |}.

Definition hi_message : message := {| text := py "hi"; user_id := Some user |}.

(** The working memory of [user] when the reply to [hi_message] is about
    to be sent, and the output assembled from the "Hello" of the agent. *)
Definition hi_working_memory : working_memory :=
  {| wm_user_id := user;
     user_message_json := hi_message;
     recall_query := Some (py "hi");
     episodic_memories := [];
     declarative_memories := [];
     procedural_memories := [];
     history := [] |}.

(** The same working memory when the recall starts. *)
Definition hi_read_memory : working_memory :=
  set_user_message_json hi_message (empty_working_memory user).

Definition hello_output : chat_output :=
  build_final_output user
    {| cm_input := py "hi"; cm_intermediate_steps := []; cm_output := py "Hello" |}
    hi_working_memory.

(** A tool and a persisted tool record with the description [d]. *)
Definition tool_described (d : String.string) : tool :=
  {| tool_name := py d; tool_description := py d; tool_docstring := py d |}.

Definition record_described (i : point_id) (d : String.string) : point :=
  {| pt_id := i;
     payload := {| page_content := py d;
                   doc_metadata := tool_metadata 0%Q (tool_described d) |} |}.

(** The records A, B and C are persisted and the tools A, C and D are live. *)
Definition abc_world : world :=
  {| tools := [tool_described "A"; tool_described "C"; tool_described "D"];
     vectors :=
       {| episodic := empty_collection;
          declarative := empty_collection;
          procedural :=
            {| points := [record_described 0%N "A"; record_described 1%N "B";
                          record_described 2%N "C"];
               next_id := 3%N |} |};
     working_memory_list := [];
     ticks := 0 |}.

Definition letter_a : char := 97%N.
Definition space : char := 32%N.

(** 601 characters: a space, then 600 letters. *)
Definition leading_space_text : str := space :: repeat letter_a 600.

(** 650 characters with a single space, at index 480. *)
Definition text_650 : str := repeat letter_a 480 ++ space :: repeat letter_a 169.

End Scenario.

(** ** Language model and embedder selection (lines 95-235) *)

(** A settings dict with string values, and [d[key]] on it. *)
Definition config := list (str * str).

Fixpoint dict_get (key : str) (d : config) : option str :=
  match d with
  | [] => None
  | (k', v) :: d' => if str_eqb k' key then Some v else dict_get key d'
  end.

(** What [crud.get_setting_by_name] returns when the setting exists: a dict
    whose ["value"] is the dict of the setting. *)
Record setting := { setting_value : config }.

(** A language model object: its class, with the attributes that
    [get_language_embedder] reads from it.  [OtherModel] is an object of any
    other class. *)
Inductive language_model :=
| OpenAI (openai_api_key : str)
| ChatOpenAI (openai_api_key : str)
| AzureOpenAI (openai_api_key openai_api_base : str)
| AzureChatOpenAI (openai_api_key openai_api_base : str)
| Cohere (cohere_api_key : str)
| CustomOpenAI (url : str)
| OtherModel (class_name : str).

(** An embedder object, as a factory built it. *)
Record embedder := { embedder_class : str; embedder_config : config }.

(** The settings table and the factory classes of [cat.factory.llm] and
    [cat.factory.embedder] with their [get_llm_from_config] and
    [get_embedder_from_config].  [llms_other] and [embedders_other] answer for the class names that the
    source does not spell out. *)
Record factories := {
  get_setting_by_name : str -> option setting;
  LLMDefaultConfig : config -> result language_model;
  llms_other : str -> option (config -> result language_model);
  EmbedderOpenAIConfig : config -> result embedder;
  EmbedderAzureOpenAIConfig : config -> result embedder;
  EmbedderCohereConfig : config -> result embedder;
  EmbedderLlamaCppConfig : config -> result embedder;
  EmbedderDumbConfig : config -> result embedder;
  embedders_other : str -> option (config -> result embedder)
}.

(** [d[key]] on a dict without the key. *)
Definition key_error (key : str) : exn :=
  {| exn_class := py "KeyError"; exn_message := py "'" ++ key ++ py "'" |}.

(** [getattr(module, name)] on a module without the name. *)
Definition attribute_error (module name : str) : exn :=
  {| exn_class := py "AttributeError";
     exn_message :=
       py "module '" ++ module ++ py "' has no attribute '" ++ name ++ py "'" |}.

(** [None["value"]] *)
Definition not_subscriptable : exn :=
  {| exn_class := py "TypeError";
     exn_message := py "'NoneType' object is not subscriptable" |}.

Section NaturalLanguage.

Variable F : factories.

(** [getattr(llms, name)] *)
Definition getattr_llms (name : str) : option (config -> result language_model) :=
  if str_eqb name (py "LLMDefaultConfig") then Some (LLMDefaultConfig F)
  else llms_other F name.

(** [getattr(embedders, name)] *)
Definition getattr_embedders (name : str) : option (config -> result embedder) :=
  if str_eqb name (py "EmbedderOpenAIConfig") then Some (EmbedderOpenAIConfig F)
  else if str_eqb name (py "EmbedderAzureOpenAIConfig")
  then Some (EmbedderAzureOpenAIConfig F)
  else if str_eqb name (py "EmbedderCohereConfig") then Some (EmbedderCohereConfig F)
  else if str_eqb name (py "EmbedderLlamaCppConfig") then Some (EmbedderLlamaCppConfig F)
  else if str_eqb name (py "EmbedderDumbConfig") then Some (EmbedderDumbConfig F)
  else embedders_other F name.

(** [get_language_model] (lines 114-148) *)
Definition get_language_model : result language_model :=
  (* 128 *)
  match get_setting_by_name F (py "llm_selected") with
  | None =>
      (* 130-132 *)
      LLMDefaultConfig F []
  | Some selected_llm =>
      (* 136 *)
      match dict_get (py "name") (setting_value selected_llm) with
      | None => Raise (key_error (py "name"))
      | Some selected_llm_class =>
          (* 137 *)
          match getattr_llms selected_llm_class with
          | None => Raise (attribute_error (py "cat.factory.llm") selected_llm_class)
          | Some FactoryClass =>
              (* 140 *)
              let selected_llm_config := get_setting_by_name F selected_llm_class in
              (* 141-142 *)
              let tried :=
                match selected_llm_config with
                | None => Raise not_subscriptable
                | Some c => FactoryClass (setting_value c)
                end in
              match tried with
              | Ok llm => Ok llm
              | Raise _ =>
                  (* 143-146 *)
                  LLMDefaultConfig F []
              end
          end
      end
  end.

(** [get_language_embedder] (lines 150-235); [_llm] is [self._llm]. *)
Definition get_language_embedder (_llm : language_model) : result embedder :=
  (* 170 *)
  match get_setting_by_name F (py "embedder_selected") with
  | Some selected_embedder =>
      (* 174 *)
      match dict_get (py "name") (setting_value selected_embedder) with
      | None => Raise (key_error (py "name"))
      | Some selected_embedder_class =>
          (* 175 *)
          match getattr_embedders selected_embedder_class with
          | None =>
              Raise (attribute_error (py "cat.factory.embedder") selected_embedder_class)
          | Some FactoryClass =>
              (* 178-181 *)
              match get_setting_by_name F selected_embedder_class with
              | None => Raise not_subscriptable
              | Some c => FactoryClass (setting_value c)
              end
          end
      end
  | None =>
      match _llm with
      | OpenAI key | ChatOpenAI key =>
          (* 184-189 *)
          EmbedderOpenAIConfig F [(py "openai_api_key", key)]
      | AzureOpenAI key api_base | AzureChatOpenAI key api_base =>
          (* 192-208 *)
          EmbedderAzureOpenAIConfig F
            [(py "openai_api_key", key);
             (py "openai_api_type", py "azure");
             (py "model", py "text-embedding-ada-002");
             (py "openai_api_base", api_base);
             (py "openai_api_version", py "2023-05-15")]
      | Cohere key =>
          (* 211-218 *)
          EmbedderCohereConfig F
            [(py "cohere_api_key", key); (py "model", py "embed-multilingual-v2.0")]
      | CustomOpenAI u =>
          (* 221-226 *)
          EmbedderLlamaCppConfig F [(py "url", u)]
      | OtherModel _ =>
          (* 228-233 *)
          EmbedderDumbConfig F []
      end
  end.

(** The attributes [self._llm] and [self.embedder] of the cat; [None] while
    an attribute is not set. *)
Record natural_language := {
  _llm : option language_model;
  cat_embedder : option embedder
}.

(** [load_natural_language] (lines 95-112): the two assignments, in their
    order; what is assigned stays assigned when the second selection
    raises. *)
Definition load_natural_language (nl : natural_language)
    : result unit * natural_language :=
  (* 111 *)
  match get_language_model with
  | Raise e => (Raise e, nl)
  | Ok llm =>
      let nl1 := {| _llm := Some llm; cat_embedder := cat_embedder nl |} in
      (* 112 *)
      match get_language_embedder llm with
      | Raise e => (Raise e, nl1)
      | Ok emb => (Ok tt, {| _llm := Some llm; cat_embedder := Some emb |})
      end
  end.

End NaturalLanguage.

(** ** Websocket notifications (lines 410-451) *)

(** [MSG_TYPES] (line 30) *)
Definition MSG_TYPES : list str :=
  [py "notification"; py "chat"; py "error"; py "chat_token"].

(** [sep.join(l)] *)
Fixpoint join (sep : str) (l : list str) : str :=
  match l with
  | [] => []
  | [x] => x
  | x :: l' => x ++ sep ++ join sep l'
  end.

(** The two dicts put on a queue (lines 436-440 and 446-449). *)
Inductive ws_message :=
| WsError (msg_type name description : str)
| WsContent (msg_type content : str).

(** A task created on the event loop: the put of a message on the
    [ws_messages] queue of a working memory. *)
Record ws_task := {
  task_working_memory : working_memory;
  task_message : ws_message
}.

(** Modelled from the spec: the user id that [get_working_memory()] takes
    when it is given none (of cat/memory/working_memory.py, outside this
    module).  "A default/anonymous user_id exists for clients that supply
    none"; for these clients line 478 takes ['user']. *)
Definition default_user_id : str := py "user".

Definition invalid_message_type (msg_type : str) : exn :=
  {| exn_class := py "ValueError";
     exn_message :=
       py "The message type `" ++ msg_type ++ py "` is not valid. Valid types: "
       ++ join (py ", ") MSG_TYPES |}.

(** [send_ws_message] (lines 410-451), on the cat's state and the tasks of
    the loop. *)
Definition send_ws_message (content msg_type : str)
    (working_memory : option working_memory) (w : world) (tasks : list ws_task)
    : result unit * world * list ws_task :=
  (* 425-426 *)
  let '(target, w1) :=
    match working_memory with
    | Some wm => (Ok wm, w)
    | None =>
        let '(_, r, w1) := get_working_memory default_user_id w in (r, w1)
    end in
  match target with
  | Raise e => (Raise e, w1, tasks)
  | Ok wm =>
      (* 428-431 *)
      if negb (str_in msg_type MSG_TYPES)
      then (Raise (invalid_message_type msg_type), w1, tasks)
      else if str_eqb msg_type (py "error")
      then
        (* 433-442 *)
        (Ok tt, w1,
         tasks ++ [{| task_working_memory := wm;
                      task_message := WsError msg_type (py "GenericError") content |}])
      else
        (* 443-451 *)
        (Ok tt, w1,
         tasks ++ [{| task_working_memory := wm;
                      task_message := WsContent msg_type content |}])
  end.

(** ** More vocabulary *)

(** A computation that leaves [f] of the world as it finds it, however it
    ends. *)
Definition preserves {A X} (f : world -> X) (m : M A) : Prop :=
  forall w, f (world_after (m w)) = f w.

(** An observation of the world that the writes of a request of session [s]
    do not reach: those to the working memory of [s], to the clock and to
    the declarative collection, and the registration of [s]. *)
Definition before_agent_frame {X} (s : str) (f : world -> X) : Prop :=
  (forall wm w, f (set_wm s wm w) = f w) /\
  (forall c w, f (set_vectors (set_collection Declarative c (vectors w)) w) = f w) /\
  (forall w,
     f (set_working_memory_list
          (working_memory_list w ++ [(s, empty_working_memory s)]) w) = f w).

(** The user id a request is served under (line 478). *)
Definition resolved_user_id (incoming : message) : str :=
  match user_id incoming with Some u => u | None => py "user" end.

Definition is_recall (ev : event) : bool :=
  match ev with EvRecall _ _ => true | _ => false end.


(** What the configuration hook of the collection [t] answers when it is
    called on [c] with the working memory [wm]. *)
Definition tier_hook_result (C : collaborators) (t : tier) (c : recall_config)
    (wm : working_memory) : result recall_config :=
  match t with
  | Episodic => fst (co_execute_hook C (before_cat_recalls_episodic_memories c) wm)
  | Declarative => fst (co_execute_hook C (before_cat_recalls_declarative_memories c) wm)
  | Procedural => fst (co_execute_hook C (before_cat_recalls_procedural_memories c) wm)
  end.


(** The calls to the rabbit hole. *)
Definition ingestion_event (ev : event) : bool :=
  match ev with
  | EvStringToDocs _ _ | EvStoreDocuments _ _ => true
  | _ => false
  end.

(** How many of the strings [l] are [d]. *)
Definition count_str (d : str) (l : list str) : nat :=
  length (filter (str_eqb d) l).

(** ** Concrete settings and factories *)

Module Setup.

(** A settings table given by its rows. *)
Fixpoint table (rows : list (str * config)) (name : str) : option setting :=
  match rows with
  | [] => None
  | (n, c) :: rows' =>
      if str_eqb n name then Some {| setting_value := c |} else table rows' name
  end.

Definition default_model : language_model := OtherModel (py "LLMDefault").

(** A factory that needs the key of its configuration. *)
Definition openai_factory (c : config) : result language_model :=
  match dict_get (py "openai_api_key") c with
  | Some key => Ok (OpenAI key)
  | None => Raise (key_error (py "openai_api_key"))
  end.

Definition built (class_name : String.string) (c : config) : result embedder :=
  Ok {| embedder_class := py class_name; embedder_config := c |}.

(** The embedder service is down for Cohere. *)
Definition cohere_down (c : config) : result embedder :=
  Raise {| exn_class := py "ConnectionError"; exn_message := py "no route" |}.

Definition factories_on (rows : list (str * config)) : factories :=
  {| get_setting_by_name := table rows;
     LLMDefaultConfig := fun _ => Ok default_model;
     llms_other :=
       fun name =>
         if str_eqb name (py "LLMOpenAIConfig") then Some openai_factory else None;
     EmbedderOpenAIConfig := built "EmbedderOpenAIConfig";
     EmbedderAzureOpenAIConfig := built "EmbedderAzureOpenAIConfig";
     EmbedderCohereConfig := cohere_down;
     EmbedderLlamaCppConfig := built "EmbedderLlamaCppConfig";
     EmbedderDumbConfig := built "EmbedderDumbConfig";
     embedders_other := fun _ => None |}.

(** OpenAI is selected and configured with a key. *)
Definition openai_rows : list (str * config) :=
  [(py "llm_selected", [(py "name", py "LLMOpenAIConfig")]);
   (py "LLMOpenAIConfig", [(py "openai_api_key", py "sk-1")])].

(** OpenAI is selected and its configuration holds no key. *)
Definition keyless_rows : list (str * config) :=
  [(py "llm_selected", [(py "name", py "LLMOpenAIConfig")]);
   (py "LLMOpenAIConfig", [])].

(** The Cohere embedder is selected. *)
Definition cohere_embedder_rows : list (str * config) :=
  [(py "embedder_selected", [(py "name", py "EmbedderCohereConfig")]);
   (py "EmbedderCohereConfig", [(py "cohere_api_key", py "co-1")])].

(** A request of 650 characters and the working memory of its user once
    the text is cut. *)
Definition long_message : message :=
  {| text := Scenario.text_650; user_id := Some Scenario.user |}.

Definition cut_memory : working_memory :=
  set_user_message_json
    {| text := firstn 480 Scenario.text_650; user_id := Some Scenario.user |}
    (empty_working_memory Scenario.user).

(** The collaborators of [Scenario.quiet] with a rabbit hole that cannot
    read a text. *)
Definition rabbit_hole_down : collaborators :=
  {| co_execute_hook := co_execute_hook Scenario.quiet;
     co_embed_query := co_embed_query Scenario.quiet;
     co_recall_memories_from_embedding :=
       co_recall_memories_from_embedding Scenario.quiet;
     co_execute_agent := co_execute_agent Scenario.quiet;
     co_string_to_docs := fun _ _ => Raise Scenario.boom;
     co_store_documents := co_store_documents Scenario.quiet;
     co_augment_tool := co_augment_tool Scenario.quiet;
     co_clock := co_clock Scenario.quiet |}.

(** Two live tools with one description, and no record. *)
Definition twin_world : world :=
  {| tools := [Scenario.tool_described "D"; Scenario.tool_described "D"];
     vectors := vectors Scenario.empty_world;
     working_memory_list := [];
     ticks := 0 |}.

Definition nothing_loaded : natural_language :=
  {| _llm := None; cat_embedder := None |}.

End Setup.

(** * Proofs *)

(** ** Strings *)

Example replace_empty_old :
  replace (py "abc") (py "") (py "-") = py "-a-b-c-".
Proof. reflexivity. Qed.

Example replace_overlap :
  replace (py "aaa") (py "aa") (py "b") = py "ba".
Proof. reflexivity. Qed.

Lemma str_eqb_eq (a b : str) : str_eqb a b = true <-> a = b.
Proof.
  revert b; induction a as [|x a IH]; intros [|y b]; simpl; split;
    try congruence; try discriminate.
  - intros H. apply andb_true_iff in H as [H1 H2].
    apply N.eqb_eq in H1. apply IH in H2. congruence.
  - intros H. injection H as -> ->. apply andb_true_iff. split.
    + apply N.eqb_refl.
    + now apply IH.
Qed.

Lemma str_eqb_refl (a : str) : str_eqb a a = true.
Proof. now apply str_eqb_eq. Qed.

Lemma str_in_In (x : str) (l : list str) : str_in x l = true <-> In x l.
Proof.
  unfold str_in. rewrite existsb_exists. split.
  - intros (y & Hy & E). apply str_eqb_eq in E. now subst.
  - intros H. exists x. split; [assumption | apply str_eqb_refl].
Qed.

Lemma str_in_false (x : str) (l : list str) : str_in x l = false <-> ~ In x l.
Proof.
  rewrite <- str_in_In. destruct (str_in x l); split; intros; congruence.
Qed.

(** ** Working memories *)

Lemma find_replace_wm uid wm l : find_wm uid (replace_wm uid wm l) = Some wm.
Proof.
  induction l as [|[u x] l IH]; simpl.
  - now rewrite str_eqb_refl.
  - destruct (str_eqb u uid) eqn:E; simpl; rewrite E; auto.
Qed.

Lemma wm_of_set_wm uid wm w : wm_of uid (set_wm uid wm w) = wm.
Proof. unfold wm_of, set_wm. simpl. now rewrite find_replace_wm. Qed.

Lemma wm_of_set_vectors uid v w : wm_of uid (set_vectors v w) = wm_of uid w.
Proof. reflexivity. Qed.

Lemma wm_of_set_ticks uid n w : wm_of uid (set_ticks n w) = wm_of uid w.
Proof. reflexivity. Qed.

Lemma wm_of_set_tools uid ts w : wm_of uid (set_tools ts w) = wm_of uid w.
Proof. reflexivity. Qed.

(** ** Oversized messages *)

Lemma scan_back_le txt n : scan_back txt n <= n.
Proof.
  induction n as [|n IH]; simpl.
  - destruct (isspace (char_at txt 0)); lia.
  - destruct (isspace (char_at txt (S n))); lia.
Qed.

Lemma scan_back_above txt n j :
  scan_back txt n < j <= n -> isspace (char_at txt j) = false.
Proof.
  induction n as [|n IH]; simpl.
  - destruct (isspace (char_at txt 0)); lia.
  - destruct (isspace (char_at txt (S n))) eqn:E; [lia|].
    intros H. destruct (Nat.eq_dec j (S n)) as [->|Hne]; [assumption|].
    apply IH. lia.
Qed.

Lemma scan_back_hit txt n :
  0 < scan_back txt n -> isspace (char_at txt (scan_back txt n)) = true.
Proof.
  induction n as [|n IH]; simpl.
  - destruct (isspace (char_at txt 0)); lia.
  - destruct (isspace (char_at txt (S n))) eqn:E; [intros _; exact E | exact IH].
Qed.

Lemma split_index_range txt : 1 <= split_index txt <= MAX_TEXT_INPUT.
Proof.
  unfold split_index. pose proof (scan_back_le txt MAX_TEXT_INPUT) as H.
  destruct (Nat.leb_spec (scan_back txt MAX_TEXT_INPUT) 0);
    unfold MAX_TEXT_INPUT in *; lia.
Qed.

Lemma split_index_cases txt :
  (isspace (char_at txt (split_index txt)) = true /\
   forall j, split_index txt < j <= MAX_TEXT_INPUT -> isspace (char_at txt j) = false)
  \/
  (split_index txt = MAX_TEXT_INPUT /\
   forall j, 1 <= j <= MAX_TEXT_INPUT -> isspace (char_at txt j) = false).
Proof.
  unfold split_index.
  destruct (Nat.leb_spec (scan_back txt MAX_TEXT_INPUT) 0) as [H|H].
  - right. split; [reflexivity|]. intros j Hj.
    apply (scan_back_above txt MAX_TEXT_INPUT). lia.
  - left. split.
    + now apply scan_back_hit.
    + apply scan_back_above.
Qed.

Section Segmentation.

Variable C : collaborators.

(** C1 (as amended).  A message text of at most [MAX_TEXT_INPUT] characters
    is left as it is and nothing is sent to the rabbit hole.  A longer text
    is cut at [split_index]: an index between 1 and 500 that is the last
    whitespace among the indices 1..500, or 500 when none of them holds a
    whitespace (a whitespace at index 0 is not a boundary).  The working
    text becomes the prefix before the cut and the rest, from the cut on,
    goes to [string_to_docs] as "text/plain" and then to [store_documents]
    with an empty source. *)
Theorem split_oversized_text_cut (session_cat : str) (w : world) :
  let txt := text (user_message_json (wm_of session_cat w)) in
  (length txt <= MAX_TEXT_INPUT ->
     split_oversized_text C session_cat w = ([], Ok tt, w)) /\
  (MAX_TEXT_INPUT < length txt ->
     let index := split_index txt in
     1 <= index <= MAX_TEXT_INPUT /\
     ((isspace (char_at txt index) = true /\
       forall j, index < j <= MAX_TEXT_INPUT -> isspace (char_at txt j) = false)
      \/
      (index = MAX_TEXT_INPUT /\
       forall j, 1 <= j <= MAX_TEXT_INPUT -> isspace (char_at txt j) = false)) /\
     exists evs r w',
       split_oversized_text C session_cat w =
         (EvStringToDocs (skipn index txt) (py "text/plain") :: evs, r, w') /\
       text (user_message_json (wm_of session_cat w')) = firstn index txt /\
       (forall docs,
          co_string_to_docs C (skipn index txt) (py "text/plain") = Ok docs ->
          evs = [EvStoreDocuments docs (py "")])).
Proof.
  intros txt. split.
  - intros Hlen. unfold split_oversized_text, bind, read_wm, gets. fold txt.
    destruct (Nat.ltb_spec MAX_TEXT_INPUT (length txt)); [lia | reflexivity].
  - intros Hlen index.
    split; [apply split_index_range|].
    split; [apply split_index_cases|].
    unfold split_oversized_text, bind, read_wm, gets. fold txt.
    destruct (Nat.ltb_spec MAX_TEXT_INPUT (length txt)); [|lia].
    fold index.
    unfold write_wm, modify, string_to_docs, store_documents, bind, emit.
    destruct (co_string_to_docs C (skipn index txt) (py "text/plain"))
      as [docs|e] eqn:Edocs.
    + destruct (co_store_documents C docs (py "")
                  (declarative (vectors (set_wm session_cat
                     (set_text (firstn index txt) (wm_of session_cat w)) w))))
        as [r c] eqn:Estore.
      eexists _, _, _. split; [reflexivity|]. split.
      * rewrite wm_of_set_vectors, wm_of_set_wm. reflexivity.
      * intros docs' E. injection E as <-. reflexivity.
    + eexists _, _, _. split; [reflexivity|]. split.
      * rewrite wm_of_set_wm. reflexivity.
      * intros docs' E. discriminate.
Qed.

End Segmentation.

(** The specification's example: 650 characters, a space at index 480. *)
Lemma split_oversized_text_cut_witness :
  MAX_TEXT_INPUT <
    length (text (user_message_json
                    (wm_of Scenario.user
                       (Scenario.world_with_text Scenario.user Scenario.text_650)))) /\
  exists evs r w',
    split_oversized_text Scenario.quiet Scenario.user
      (Scenario.world_with_text Scenario.user Scenario.text_650) =
      (EvStringToDocs (skipn 480 Scenario.text_650) (py "text/plain") :: evs, r, w') /\
    text (user_message_json (wm_of Scenario.user w')) = firstn 480 Scenario.text_650.
Proof.
  assert (Hlen : MAX_TEXT_INPUT <
    length (text (user_message_json
                    (wm_of Scenario.user
                       (Scenario.world_with_text Scenario.user Scenario.text_650)))))
    by (vm_compute; lia).
  split; [exact Hlen|].
  destruct (split_oversized_text_cut Scenario.quiet Scenario.user
              (Scenario.world_with_text Scenario.user Scenario.text_650)) as [_ H].
  destruct (H Hlen) as (_ & _ & evs & r & w' & E & T & _).
  exists evs, r, w'. split.
  - rewrite E. reflexivity.
  - rewrite T. reflexivity.
Defined.

(** C1 (as stated) fails on a text whose only whitespace is its first
    character: the last whitespace at or before index 500 is index 0, the
    code cuts at index 500 and keeps the first 500 characters. *)
Lemma split_at_last_whitespace_counterexample :
  MAX_TEXT_INPUT < length Scenario.leading_space_text /\
  last_whitespace_upto Scenario.leading_space_text MAX_TEXT_INPUT = Some 0 /\
  spec_split_index Scenario.leading_space_text = 0 /\
  split_index Scenario.leading_space_text = 500 /\
  split_index Scenario.leading_space_text
    <> spec_split_index Scenario.leading_space_text /\
  text (user_message_json
          (wm_of Scenario.user
             (world_after
                (split_oversized_text Scenario.quiet Scenario.user
                   (Scenario.world_with_text Scenario.user
                      Scenario.leading_space_text))))) =
    firstn 500 Scenario.leading_space_text.
Proof.
  vm_compute. repeat split; try reflexivity; try lia; discriminate.
Qed.

(** ** More on strings *)

Lemma startswith_app (p s : str) : startswith p (p ++ s) = true.
Proof.
  induction p as [|x p IH]; simpl; [reflexivity|].
  unfold char_eqb. now rewrite N.eqb_refl.
Qed.

Lemma replace_from_skip (old new : str) (n : nat) (s : str) :
  replace_from old new n s = replace_from old new 0 (skipn n s).
Proof.
  revert n. induction s as [|c s IH]; intros [|n]; try reflexivity.
  simpl. apply IH.
Qed.

Lemma replace_from_prefix (old new s : str) :
  old <> [] ->
  replace_from old new 0 (old ++ s) = new ++ replace_from old new 0 s.
Proof.
  destruct old as [|c old]; [congruence|]. intros _.
  change ((c :: old) ++ s) with (c :: (old ++ s)).
  cbn [replace_from].
  change (c :: old ++ s) with ((c :: old) ++ s).
  rewrite startswith_app. f_equal.
  rewrite replace_from_skip. cbn [length Nat.sub]. rewrite Nat.sub_0_r.
  now rewrite skipn_app, skipn_all, Nat.sub_diag.
Qed.

Lemma replace_from_absent (old new s : str) :
  contains old s = false -> replace_from old new 0 s = s.
Proof.
  induction s as [|c s IH]; [reflexivity|].
  cbn [contains replace_from]. intros H.
  apply orb_false_iff in H as [H1 H2]. rewrite H1. f_equal. auto.
Qed.

Lemma replace_single_char (c : char) (s : str) :
  replace s [c] [] = filter (fun x => negb (char_eqb c x)) s.
Proof.
  unfold replace. induction s as [|x s IH]; [reflexivity|].
  cbn [replace_from startswith filter length Nat.sub].
  rewrite andb_true_r. destruct (char_eqb c x); cbn [negb app]; now rewrite IH.
Qed.

Lemma parse_error_marker_nonempty : parse_error_marker <> [].
Proof. discriminate. Qed.

Lemma unparsable_llm_output_filter (msg : str) :
  unparsable_llm_output msg =
    filter not_backtick (replace_from parse_error_marker [] 0 msg).
Proof.
  unfold unparsable_llm_output.
  change (py "`") with [backtick]. change (py "") with (@nil char).
  rewrite replace_single_char. reflexivity.
Qed.

Lemma unparsable_llm_output_no_backtick (msg : str) :
  ~ In backtick (unparsable_llm_output msg).
Proof.
  rewrite unparsable_llm_output_filter. intros H.
  apply filter_In in H as [_ H]. unfold not_backtick, char_eqb in H.
  now rewrite N.eqb_refl in H.
Qed.

Lemma filter_not_backtick_id (s : str) :
  ~ In backtick s -> filter not_backtick s = s.
Proof.
  induction s as [|c s IH]; [reflexivity|]. intros H. cbn [filter].
  unfold not_backtick at 1. unfold char_eqb.
  destruct (N.eqb_spec backtick c) as [E|Hne].
  - exfalso. apply H. left. now symmetry.
  - cbn [negb]. f_equal. apply IH. intros Hin. apply H. now right.
Qed.

(** The message langchain builds around a raw text that does not itself
    hold the marker. *)
Lemma unparsable_llm_output_raw (raw : str) :
  contains parse_error_marker (raw ++ [backtick]) = false ->
  unparsable_llm_output (parse_error_marker ++ raw ++ [backtick]) =
    filter not_backtick raw.
Proof.
  intros H. rewrite unparsable_llm_output_filter.
  rewrite replace_from_prefix by apply parse_error_marker_nonempty.
  rewrite replace_from_absent by assumption.
  cbn [app]. rewrite filter_app. cbn. apply app_nil_r.
Qed.

Lemma filter_not_backtick_changes (s : str) :
  In backtick s -> filter not_backtick s <> s.
Proof.
  intros Hin E. rewrite <- E in Hin.
  apply filter_In in Hin as [_ H]. unfold not_backtick, char_eqb in H.
  now rewrite N.eqb_refl in H.
Qed.

(** ** Running the pipeline *)

Arguments wm_of : simpl never.
Arguments set_wm : simpl never.
Arguments set_vectors : simpl never.
Arguments set_ticks : simpl never.
Arguments set_tools : simpl never.
Arguments set_working_memory_list : simpl never.
Arguments py : simpl never.
Arguments build_final_output : simpl never.
Arguments unparsable_llm_output : simpl never.
Arguments fallback_cat_message : simpl never.
Arguments contains : simpl never.
Arguments store_texts : simpl never.
Arguments set_collection : simpl never.
Arguments episodic_metadata : simpl never.
Arguments parse_error_marker : simpl never.
Arguments split_index : simpl never.
Arguments MAX_TEXT_INPUT : simpl never.
Arguments Nat.ltb : simpl never.

Lemma vectors_set_wm s wm w : vectors (set_wm s wm w) = vectors w.
Proof. reflexivity. Qed.

Lemma ticks_set_wm s wm w : ticks (set_wm s wm w) = ticks w.
Proof. reflexivity. Qed.

Lemma tools_set_wm s wm w : tools (set_wm s wm w) = tools w.
Proof. reflexivity. Qed.

Lemma vectors_set_ticks n w : vectors (set_ticks n w) = vectors w.
Proof. reflexivity. Qed.

Lemma ticks_set_ticks n w : ticks (set_ticks n w) = n.
Proof. reflexivity. Qed.

Lemma tools_set_ticks n w : tools (set_ticks n w) = tools w.
Proof. reflexivity. Qed.

Lemma vectors_set_vectors v w : vectors (set_vectors v w) = v.
Proof. reflexivity. Qed.

Lemma ticks_set_vectors v w : ticks (set_vectors v w) = ticks w.
Proof. reflexivity. Qed.

Lemma tools_set_vectors v w : tools (set_vectors v w) = tools w.
Proof. reflexivity. Qed.

Lemma vectors_set_tools ts w : vectors (set_tools ts w) = vectors w.
Proof. reflexivity. Qed.

Lemma ticks_set_tools ts w : ticks (set_tools ts w) = ticks w.
Proof. reflexivity. Qed.

Lemma tools_set_tools ts w : tools (set_tools ts w) = ts.
Proof. reflexivity. Qed.

Create Rewrite HintDb world.
#[local] Hint Rewrite wm_of_set_wm wm_of_set_vectors wm_of_set_ticks wm_of_set_tools
  vectors_set_wm ticks_set_wm tools_set_wm
  vectors_set_ticks ticks_set_ticks tools_set_ticks
  vectors_set_vectors ticks_set_vectors tools_set_vectors
  vectors_set_tools ticks_set_tools tools_set_tools : world.

Ltac unfold_monad :=
  unfold bind, ret, raise, attempt, emit, gets, modify, on_session, read_wm, write_wm.

Ltac unfold_calls :=
  unfold execute_hook, embed_query, recall_memories_from_embedding, execute_agent,
    string_to_docs, store_documents, time_time, add_texts, vector_db_delete,
    get_all_points, update_conversation_history, traceback_print_exc.

Ltac run := unfold_calls; unfold_monad; cbn; autorewrite with world.

Section Reply.

Variable C : collaborators.

(** An agent failure without the marker leaves [reply_with_agent] at once. *)
Lemma reply_with_agent_fatal uid s w e wm1 :
  co_execute_agent C (wm_of s w) = (Raise e, wm1) ->
  contains parse_error_marker (exn_message e) = false ->
  reply_with_agent C uid s w =
    ([EvExecuteAgent (wm_of s w)], Raise e, set_wm s wm1 w).
Proof.
  intros Ha Hm. unfold reply_with_agent. run. rewrite Ha. cbn.
  rewrite Hm. reflexivity.
Qed.

(** The run of [reply_with_agent] when the agent answers or its failure is
    recovered, up to what the pre-send hook does. *)
Lemma reply_with_agent_run uid s w ra wm1 cm rh wm3 :
  co_execute_agent C (wm_of s w) = (ra, wm1) ->
  agent_yields ra wm1 cm ->
  co_execute_hook C (before_cat_sends_message (build_final_output uid cm wm1)) wm1
    = (rh, wm3) ->
  let now := co_clock C (ticks w) in
  let user_message := text (user_message_json wm1) in
  let md := episodic_metadata uid now in
  exists w',
    reply_with_agent C uid s w =
      ([EvExecuteAgent (wm_of s w);
        EvAddTexts Episodic [user_message] [md];
        EvHook (before_cat_sends_message (build_final_output uid cm wm1)) wm1],
       match rh with
       | Ok final_output => Ok (ChatOutput final_output)
       | Raise e => Raise e
       end, w') /\
    vectors w' = vectors (with_episodic_text user_message md w) /\
    history (wm_of s w') =
      match rh with
      | Ok final_output =>
          history wm3 ++
            [human_turn user_message (co_clock C (S (ticks w)));
             ai_turn final_output (co_clock C (S (S (ticks w))))]
      | Raise _ => history wm3
      end.
Proof.
  intros Ha Hy Hh now user_message md.
  unfold reply_with_agent. run. rewrite Ha. cbn.
  destruct ra as [cm'|e]; cbn in Hy.
  - subst cm'. run. rewrite Hh. destruct rh as [fo|e]; run.
    + eexists. split; [reflexivity|]. run. split; [reflexivity|].
      cbn. rewrite <- app_assoc. reflexivity.
    + eexists. split; [reflexivity|]. run. split; reflexivity.
  - destruct Hy as [Hm ->]. rewrite Hm. run. rewrite Hh.
    destruct rh as [fo|e']; run.
    + eexists. split; [reflexivity|]. run. split; [reflexivity|].
      cbn. rewrite <- app_assoc. reflexivity.
    + eexists. split; [reflexivity|]. run. split; reflexivity.
Qed.


(** C3 (as amended).  When the agent raises with the marker
    "Could not parse LLM output: `" in its message the failure is not fatal:
    the pipeline goes on with a result whose input is the working message
    text, whose intermediate steps are empty and whose output is the failure
    message with every occurrence of the marker removed and then every
    backtick removed; this result is assembled, handed to the pre-send hook
    and returned.  The output is the raw model text when the message is the
    marker, the raw text and a closing backtick, the raw text holds no
    backtick and the marker does not occur a second time; for
    "Could not parse LLM output: `hello world`" it is "hello world".  An
    agent failure without the marker is raised again. *)
Theorem agent_parse_failure_recovered uid s w e wm1 :
  co_execute_agent C (wm_of s w) = (Raise e, wm1) ->
  (contains parse_error_marker (exn_message e) = true ->
     let cm := fallback_cat_message wm1 (exn_message e) in
     let final_output := build_final_output uid cm wm1 in
     (cm_input cm = text (user_message_json wm1) /\
      cm_intermediate_steps cm = [] /\
      cm_output cm =
        replace (replace (exn_message e) parse_error_marker (py "")) (py "`") (py ""))
     /\
     (content final_output = cm_output cm /\
      why_input (why final_output) = cm_input cm /\
      why_intermediate_steps (why final_output) = [])
     /\
     (exists evs r w',
        reply_with_agent C uid s w = (evs, r, w') /\
        In (EvHook (before_cat_sends_message final_output) wm1) evs /\
        forall returned wm3,
          co_execute_hook C (before_cat_sends_message final_output) wm1
            = (Ok returned, wm3) ->
          r = Ok (ChatOutput returned))
     /\
     (forall raw,
        exn_message e = parse_error_marker ++ raw ++ [backtick] ->
        ~ In backtick raw ->
        contains parse_error_marker (raw ++ [backtick]) = false ->
        cm_output cm = raw))
  /\
  (contains parse_error_marker (exn_message e) = false ->
     reply_with_agent C uid s w =
       ([EvExecuteAgent (wm_of s w)], Raise e, set_wm s wm1 w))
  /\
  unparsable_llm_output (py "Could not parse LLM output: `hello world`")
    = py "hello world".
Proof.
  intros Ha. split; [|split].
  - intros Hm cm final_output.
    split; [repeat split|]. split; [repeat split|]. split.
    + destruct (co_execute_hook C (before_cat_sends_message final_output) wm1)
        as [rh wm3] eqn:Hh.
      destruct (reply_with_agent_run uid s w (Raise e) wm1 cm rh wm3 Ha)
        as (w' & E & _); [split; [assumption | reflexivity] | exact Hh |].
      eexists _, _, w'. split; [exact E|]. split.
      * cbn. auto.
      * intros returned wm3' E'.
        assert (Hr : rh = Ok returned) by congruence.
        rewrite Hr. reflexivity.
    + intros raw Hraw Hbt Hct. unfold cm, fallback_cat_message. cbn [cm_output].
      rewrite Hraw, unparsable_llm_output_raw by assumption.
      now apply filter_not_backtick_id.
  - intros Hm. now apply reply_with_agent_fatal.
  - vm_compute. reflexivity.
Qed.

(** C10 (as amended).  In the fallback the recovered output is the failure
    message with every occurrence of the marker removed and then every
    backtick removed.  It holds no backtick; when the message is the
    marker, a raw text and the closing backtick, and the marker does not
    occur again in the raw text followed by that backtick, the output is
    the raw text without its backticks, which is not the raw text when that
    holds a backtick. *)
Theorem unparsable_output_strips_backticks uid s w e wm1 :
  co_execute_agent C (wm_of s w) = (Raise e, wm1) ->
  contains parse_error_marker (exn_message e) = true ->
  let out :=
    filter not_backtick (replace (exn_message e) parse_error_marker (py "")) in
  (exists final_output evs r w',
     reply_with_agent C uid s w = (evs, r, w') /\
     In (EvHook (before_cat_sends_message final_output) wm1) evs /\
     content final_output = out /\
     forall returned wm3,
       co_execute_hook C (before_cat_sends_message final_output) wm1
         = (Ok returned, wm3) ->
       r = Ok (ChatOutput returned))
  /\
  ~ In backtick out
  /\
  (forall raw,
     exn_message e = parse_error_marker ++ raw ++ [backtick] ->
     contains parse_error_marker (raw ++ [backtick]) = false ->
     out = filter not_backtick raw /\ (In backtick raw -> out <> raw)).
Proof.
  intros Ha Hm out.
  assert (Hout : out = unparsable_llm_output (exn_message e)).
  { unfold out. rewrite unparsable_llm_output_filter. reflexivity. }
  split; [|split].
  - set (cm := fallback_cat_message wm1 (exn_message e)).
    set (final_output := build_final_output uid cm wm1).
    destruct (co_execute_hook C (before_cat_sends_message final_output) wm1)
      as [rh wm3] eqn:Hh.
    destruct (reply_with_agent_run uid s w (Raise e) wm1 cm rh wm3 Ha)
      as (w' & E & _); [split; [assumption | reflexivity] | exact Hh |].
    exists final_output. eexists _, _, w'. split; [exact E|]. split; [|split].
    + cbn. auto.
    + rewrite Hout. reflexivity.
    + intros returned wm3' E'.
        assert (Hr : rh = Ok returned) by congruence.
        rewrite Hr. reflexivity.
  - rewrite Hout. apply unparsable_llm_output_no_backtick.
  - intros raw Hraw Hct.
    assert (E : out = filter not_backtick raw).
    { rewrite Hout, Hraw. now apply unparsable_llm_output_raw. }
    split; [exact E|]. intros Hin. rewrite E.
    now apply filter_not_backtick_changes.
Qed.

(** C4 (as amended).  Whether the agent answers or its failure is
    recovered, the pipeline then stores, as one new point of the episodic
    collection, the message text that the working memory holds at that
    moment (the text as the pre-read hook and the cut of an oversized
    message left it), tagged with the user id of the request and the time
    read just before; it does so before the output is assembled and handed
    to the pre-send hook. *)
Theorem working_text_stored_in_episodic_memory uid s w ra wm1 cm :
  co_execute_agent C (wm_of s w) = (ra, wm1) ->
  agent_yields ra wm1 cm ->
  let now := co_clock C (ticks w) in
  let user_message := text (user_message_json wm1) in
  exists r w',
    reply_with_agent C uid s w =
      ([EvExecuteAgent (wm_of s w);
        EvAddTexts Episodic [user_message]
          [{| md_source := uid; md_when := now;
              md_name := None; md_docstring := None |}];
        EvHook (before_cat_sends_message (build_final_output uid cm wm1)) wm1],
       r, w') /\
    points (episodic (vectors w')) =
      points (episodic (vectors w)) ++
        [{| pt_id := next_id (episodic (vectors w));
            payload :=
              {| page_content := user_message;
                 doc_metadata :=
                   {| md_source := uid; md_when := now;
                      md_name := None; md_docstring := None |} |} |}].
Proof.
  intros Ha Hy now user_message.
  destruct (co_execute_hook C (before_cat_sends_message (build_final_output uid cm wm1))
              wm1) as [rh wm3] eqn:Hh.
  destruct (reply_with_agent_run uid s w ra wm1 cm rh wm3 Ha Hy Hh)
    as (w' & E & Hv & _).
  eexists _, w'. split; [exact E|]. rewrite Hv. reflexivity.
Qed.

End Reply.


Lemma agent_parse_failure_recovered_witness :
  co_execute_agent (Scenario.cat_failing_with Scenario.hello_world_failure)
    (wm_of Scenario.user Scenario.hi_world)
    = (Raise Scenario.hello_world_failure, wm_of Scenario.user Scenario.hi_world) /\
  exists final_output evs w',
    reply_with_agent (Scenario.cat_failing_with Scenario.hello_world_failure)
      Scenario.user Scenario.user Scenario.hi_world
      = (evs, Ok (ChatOutput final_output), w') /\
    content final_output = py "hello world" /\
    why_intermediate_steps (why final_output) = [].
Proof.
  split; [reflexivity|].
  destruct (agent_parse_failure_recovered
              (Scenario.cat_failing_with Scenario.hello_world_failure)
              Scenario.user Scenario.user Scenario.hi_world
              Scenario.hello_world_failure
              (wm_of Scenario.user Scenario.hi_world) eq_refl)
    as (H & _ & Hhello).
  destruct H as (_ & (Hc & _ & Hs) & (evs & r & w' & E & _ & Hr) & _).
  - vm_compute. reflexivity.
  - eexists _, evs, w'. split; [|split].
    + rewrite E. f_equal. f_equal. apply Hr with (wm3 := wm_of Scenario.user Scenario.hi_world).
      reflexivity.
    + rewrite Hc. exact Hhello.
    + exact Hs.
Defined.

(** C3 (as stated) fails when the raw model text holds a backtick: for the
    failure message "Could not parse LLM output: `a`b`" the raw text is
    [a`b] and the returned output is [ab]. *)
Lemma raw_model_text_counterexample :
  exn_message Scenario.backtick_failure
    = parse_error_marker ++ py "a`b" ++ [backtick] /\
  returned_content
    (outcome
       (reply_with_agent (Scenario.cat_failing_with Scenario.backtick_failure)
          Scenario.user Scenario.user Scenario.hi_world))
    = Some (py "ab") /\
  py "ab" <> py "a`b".
Proof.
  vm_compute. repeat split; try reflexivity. discriminate.
Qed.

Lemma unparsable_output_strips_backticks_witness :
  co_execute_agent (Scenario.cat_failing_with Scenario.backtick_failure)
    (wm_of Scenario.user Scenario.hi_world)
    = (Raise Scenario.backtick_failure, wm_of Scenario.user Scenario.hi_world) /\
  contains parse_error_marker (exn_message Scenario.backtick_failure) = true /\
  filter not_backtick
    (replace (exn_message Scenario.backtick_failure) parse_error_marker (py ""))
    = py "ab" /\
  filter not_backtick
    (replace (exn_message Scenario.backtick_failure) parse_error_marker (py ""))
    <> py "a`b".
Proof.
  split; [reflexivity|]. split; [vm_compute; reflexivity|].
  destruct (unparsable_output_strips_backticks
              (Scenario.cat_failing_with Scenario.backtick_failure)
              Scenario.user Scenario.user Scenario.hi_world
              Scenario.backtick_failure
              (wm_of Scenario.user Scenario.hi_world) eq_refl)
    as (_ & _ & H).
  - vm_compute. reflexivity.
  - destruct (H (py "a`b")) as [E Hne].
    + vm_compute. reflexivity.
    + vm_compute. reflexivity.
    + split.
      * rewrite E. vm_compute. reflexivity.
      * apply Hne. vm_compute. right. left. reflexivity.
Defined.

(** C10 (as stated) fails when the raw model text quotes the marker: for
    the raw text [x Could not parse LLM output: `y], which holds a backtick,
    the marker is removed from the raw text too and the returned output is
    [x y], not the raw text without its backticks. *)
Lemma quoted_marker_counterexample :
  exn_message Scenario.quoted_marker_failure
    = parse_error_marker ++ py "x Could not parse LLM output: `y" ++ [backtick] /\
  contains parse_error_marker (exn_message Scenario.quoted_marker_failure) = true /\
  In backtick (py "x Could not parse LLM output: `y") /\
  returned_content
    (outcome
       (reply_with_agent (Scenario.cat_failing_with Scenario.quoted_marker_failure)
          Scenario.user Scenario.user Scenario.hi_world))
    = Some (py "x y") /\
  filter not_backtick (py "x Could not parse LLM output: `y")
    = py "x Could not parse LLM output: y" /\
  py "x y" <> py "x Could not parse LLM output: y".
Proof.
  split; [vm_compute; reflexivity|]. split; [vm_compute; reflexivity|].
  split; [vm_compute; tauto|]. split; [vm_compute; reflexivity|].
  split; [vm_compute; reflexivity|]. vm_compute. discriminate.
Qed.

Lemma working_text_stored_in_episodic_memory_witness :
  co_execute_agent Scenario.quiet (wm_of Scenario.user Scenario.hi_world)
    = (Ok {| cm_input := py "hi"; cm_intermediate_steps := [];
             cm_output := py "Hello" |},
       wm_of Scenario.user Scenario.hi_world) /\
  exists r w',
    reply_with_agent Scenario.quiet Scenario.user Scenario.user Scenario.hi_world
      = ([EvExecuteAgent (wm_of Scenario.user Scenario.hi_world);
          EvAddTexts Episodic [py "hi"]
            [{| md_source := Scenario.user; md_when := 0%Q;
                md_name := None; md_docstring := None |}];
          EvHook
            (before_cat_sends_message
               (build_final_output Scenario.user
                  {| cm_input := py "hi"; cm_intermediate_steps := [];
                     cm_output := py "Hello" |}
                  (wm_of Scenario.user Scenario.hi_world)))
            (wm_of Scenario.user Scenario.hi_world)],
         r, w') /\
    stored_texts (episodic (vectors w')) = [py "hi"].
Proof.
  split; [reflexivity|].
  destruct (working_text_stored_in_episodic_memory Scenario.quiet
              Scenario.user Scenario.user Scenario.hi_world
              (Ok {| cm_input := py "hi"; cm_intermediate_steps := [];
                     cm_output := py "Hello" |})
              (wm_of Scenario.user Scenario.hi_world)
              {| cm_input := py "hi"; cm_intermediate_steps := [];
                 cm_output := py "Hello" |} eq_refl eq_refl)
    as (r & w' & E & P).
  exists r, w'. split; [exact E|].
  unfold stored_texts. rewrite P. reflexivity.
Defined.

(** C4 (as stated) fails on an oversized message: of the 650 characters of
    the original text only the first 480, the working text after the cut,
    are stored in the episodic collection. *)
Lemma original_text_not_stored_counterexample :
  returned_content
    (outcome
       (__call__ Scenario.quiet
          {| text := Scenario.text_650; user_id := Some Scenario.user |}
          Scenario.empty_world))
    = Some (py "Hello") /\
  stored_texts
    (episodic
       (vectors
          (world_after
             (__call__ Scenario.quiet
                {| text := Scenario.text_650; user_id := Some Scenario.user |}
                Scenario.empty_world))))
    = [firstn 480 Scenario.text_650] /\
  firstn 480 Scenario.text_650 <> Scenario.text_650.
Proof.
  vm_compute. repeat split; try reflexivity. discriminate.
Qed.

(** ** Recall *)

Ltac step :=
  match goal with
  | |- context [co_execute_hook ?C ?h ?wm] =>
      let r := fresh "r" in
      let wm' := fresh "wm" in
      let E := fresh "E" in
      destruct (co_execute_hook C h wm) as [r wm'] eqn:E; destruct r; run
  | |- context [co_embed_query ?C ?q] =>
      let E := fresh "E" in destruct (co_embed_query C q) eqn:E; run
  | |- context [co_recall_memories_from_embedding ?C ?t ?c ?cfg] =>
      let E := fresh "E" in
      destruct (co_recall_memories_from_embedding C t c cfg) eqn:E; run
  end.

Ltac in_cases H :=
  match type of H with
  | _ \/ _ => destruct H as [H|H]; [try discriminate H | in_cases H]
  | False => destruct H
  | _ => idtac
  end.

Section Recall.

Variable C : collaborators.

Lemma recall_events (s : str) (w : world) :
  forallb recall_event
    (events_of (recall_relevant_memories_to_working_memory C s w)) = true.
Proof.
  unfold recall_relevant_memories_to_working_memory. run.
  repeat (step; try reflexivity).
Qed.




Lemma recall_events_no_agent (evs : list event) :
  forallb recall_event evs = true ->
  filter is_execute_agent evs = [] /\ filter is_add_texts evs = [].
Proof.
  induction evs as [|ev evs IH]; [easy|]. cbn [forallb filter]. intros H.
  apply andb_true_iff in H as [H1 H2]. destruct (IH H2) as [-> ->].
  destruct ev; try discriminate H1; easy.
Qed.

Lemma recall_events_hooks (evs : list event) h wm :
  forallb recall_event evs = true -> In (EvHook h wm) evs -> recall_hook h = true.
Proof.
  intros H Hin. rewrite forallb_forall in H. exact (H _ Hin).
Qed.

(** C2 (what the code does).  When the recall raises, the handler of
    [__call__] calls [traceback.print_exc(e)], which raises a [TypeError]:
    the run ends with that exception and the error output of lines 528-532
    is not returned.  Neither the agent nor the episodic store is called. *)
Theorem recall_failure_outcome uid s w evs e w1 :
  recall_relevant_memories_to_working_memory C s w = (evs, Raise e, w1) ->
  recall_and_reply C uid s w =
    (evs,
     Raise {| exn_class := py "TypeError";
              exn_message :=
                py "'>=' not supported between instances of '"
                ++ exn_class e ++ py "' and 'int'" |},
     w1) /\
  filter is_execute_agent evs = [] /\
  filter is_add_texts evs = [].
Proof.
  intros H. split.
  - unfold recall_and_reply, bind, attempt. rewrite H. cbn.
    rewrite app_nil_r. reflexivity.
  - apply recall_events_no_agent.
    pose proof (recall_events s w) as Hev. rewrite H in Hev. exact Hev.
Qed.

(** Inside the recall no hook exception is swallowed. *)
Lemma recall_hook_exception s w h wm e wm' :
  co_execute_hook C h wm = (Raise e, wm') ->
  In (EvHook h wm) (events_of (recall_relevant_memories_to_working_memory C s w)) ->
  outcome (recall_relevant_memories_to_working_memory C s w) = Raise e.
Proof.
  intros Hraise. unfold events_of, outcome.
  unfold recall_relevant_memories_to_working_memory. run.
  repeat step.
  all: intros Hin; cbn in Hin; in_cases Hin.
  all: injection Hin as <- <-; congruence.
Qed.

End Recall.

(** ** The conversation history *)

Lemma keeps_bind {A B} s (m : M A) (f : A -> M B) :
  keeps_history s m -> (forall a, keeps_history s (f a)) ->
  keeps_history s (bind m f).
Proof.
  intros Hm Hf w. specialize (Hm w). unfold world_after, bind in *.
  destruct (m w) as [[e1 r] w1]. cbn in *. destruct r as [a|e]; [|exact Hm].
  specialize (Hf a w1). unfold world_after in Hf.
  destruct (f a w1) as [[e2 r2] w2]. cbn in *. congruence.
Qed.

Lemma keeps_ret {A} s (a : A) : keeps_history s (ret a).
Proof. intros w. reflexivity. Qed.

Lemma keeps_raise {A} s e : keeps_history s (@raise A e).
Proof. intros w. reflexivity. Qed.

Lemma keeps_emit s ev : keeps_history s (emit ev).
Proof. intros w. reflexivity. Qed.

Lemma keeps_gets {A} s (f : world -> A) : keeps_history s (gets f).
Proof. intros w. reflexivity. Qed.

Lemma keeps_attempt {A} s (m : M A) : keeps_history s m -> keeps_history s (attempt m).
Proof.
  intros Hm w. specialize (Hm w). unfold world_after, attempt in *.
  destruct (m w) as [[e r] w1]. exact Hm.
Qed.

Lemma keeps_write_wm s (f : working_memory -> working_memory) :
  (forall wm, history (f wm) = history wm) -> keeps_history s (write_wm s f).
Proof.
  intros Hf w. unfold write_wm, modify, world_after. cbn.
  rewrite wm_of_set_wm. apply Hf.
Qed.

Lemma keeps_on_session {A} s (f : working_memory -> result A * working_memory) :
  (forall wm, history (snd (f wm)) = history wm) -> keeps_history s (on_session s f).
Proof.
  intros Hf w. unfold on_session, world_after. specialize (Hf (wm_of s w)).
  destruct (f (wm_of s w)) as [r wm']. cbn in *. now rewrite wm_of_set_wm.
Qed.

Lemma keeps_for_each {A} s (l : list A) (body : A -> M unit) :
  (forall x, keeps_history s (body x)) -> keeps_history s (for_each l body).
Proof.
  intros Hb. induction l as [|x l IH]; cbn [for_each].
  - apply keeps_ret.
  - apply keeps_bind; [apply Hb | intros _; exact IH].
Qed.

Lemma find_wm_app_new uid wm l :
  find_wm uid l = None -> find_wm uid (l ++ [(uid, wm)]) = Some wm.
Proof.
  induction l as [|[u x] l IH]; cbn.
  - now rewrite str_eqb_refl.
  - destruct (str_eqb u uid); [discriminate | exact IH].
Qed.

Lemma keeps_get_working_memory uid : keeps_history uid (get_working_memory uid).
Proof.
  intros w. unfold get_working_memory, world_after.
  destruct (find_wm uid (working_memory_list w)) eqn:E; [reflexivity|].
  unfold wm_of, set_working_memory_list. cbn [snd working_memory_list].
  rewrite E, (find_wm_app_new _ _ _ E). reflexivity.
Qed.

Section History.

Variable C : collaborators.
Hypothesis Hkeep : collaborators_keep_history C.

Lemma keeps_execute_hook s h : keeps_history s (execute_hook C h s).
Proof.
  unfold execute_hook, read_wm.
  apply keeps_bind; [apply keeps_gets | intros wm].
  apply keeps_bind; [apply keeps_emit | intros _].
  apply keeps_on_session. apply Hkeep.
Qed.

Lemma keeps_time_time s : keeps_history s (time_time C).
Proof. intros w. reflexivity. Qed.

Lemma keeps_embed_query s q : keeps_history s (embed_query C q).
Proof. intros w. reflexivity. Qed.

Lemma keeps_recall_memories s t c :
  keeps_history s (recall_memories_from_embedding C t c).
Proof. intros w. reflexivity. Qed.

Lemma keeps_string_to_docs s a b : keeps_history s (string_to_docs C a b).
Proof. intros w. reflexivity. Qed.

Lemma keeps_store_documents s a b : keeps_history s (store_documents C a b).
Proof.
  intros w. unfold store_documents, bind, emit, world_after. cbn.
  destruct (co_store_documents C a b (declarative (vectors w))). reflexivity.
Qed.

Lemma keeps_split_oversized_text s : keeps_history s (split_oversized_text C s).
Proof.
  unfold split_oversized_text, read_wm.
  apply keeps_bind; [apply keeps_gets | intros wm].
  destruct (MAX_TEXT_INPUT <? length (text (user_message_json wm)));
    [|apply keeps_ret].
  apply keeps_bind; [apply keeps_write_wm; reflexivity | intros _].
  apply keeps_bind; [apply keeps_string_to_docs | intros docs].
  apply keeps_store_documents.
Qed.

Lemma keeps_read_message incoming uid :
  keeps_history uid (read_message C incoming uid).
Proof.
  unfold read_message, read_wm.
  apply keeps_bind; [apply keeps_get_working_memory | intros _].
  apply keeps_bind; [apply keeps_write_wm; reflexivity | intros _].
  apply keeps_bind; [apply keeps_gets | intros wm].
  apply keeps_bind; [apply keeps_execute_hook | intros m].
  apply keeps_bind; [apply keeps_write_wm; reflexivity | intros _].
  apply keeps_split_oversized_text.
Qed.

Lemma keeps_recall s :
  keeps_history s (recall_relevant_memories_to_working_memory C s).
Proof.
  unfold recall_relevant_memories_to_working_memory, read_wm.
  apply keeps_bind; [apply keeps_gets | intros wm].
  apply keeps_bind; [apply keeps_execute_hook | intros q].
  apply keeps_bind; [apply keeps_embed_query | intros v].
  apply keeps_bind; [apply keeps_write_wm; reflexivity | intros _].
  apply keeps_bind; [apply keeps_execute_hook | intros _].
  apply keeps_bind; [apply keeps_execute_hook | intros c1].
  apply keeps_bind; [apply keeps_execute_hook | intros c2].
  apply keeps_bind; [apply keeps_execute_hook | intros c3].
  apply keeps_bind;
    [|intros _; exact (keeps_execute_hook s after_cat_recalls_memories)].
  apply keeps_for_each. intros [config memory_type].
  apply keeps_bind; [apply keeps_recall_memories | intros ms].
  apply keeps_write_wm. intros wm'. reflexivity.
Qed.

(** What [reply_with_agent] does to the history, by how it ends. *)
Lemma reply_with_agent_history uid s w :
  match outcome (reply_with_agent C uid s w) with
  | Ok (ChatOutput final_output) =>
      exists user_message t1 t2,
        history (wm_of s (world_after (reply_with_agent C uid s w))) =
          history (wm_of s w) ++
            [human_turn user_message t1; ai_turn final_output t2]
  | _ =>
      history (wm_of s (world_after (reply_with_agent C uid s w))) =
        history (wm_of s w)
  end.
Proof.
  destruct Hkeep as [Hh Ha].
  destruct (co_execute_agent C (wm_of s w)) as [ra wm1] eqn:Eagent.
  assert (H1 : history wm1 = history (wm_of s w)).
  { specialize (Ha (wm_of s w)). now rewrite Eagent in Ha. }
  assert (Hrun : forall cm, agent_yields ra wm1 cm ->
    match outcome (reply_with_agent C uid s w) with
    | Ok (ChatOutput final_output) =>
        exists user_message t1 t2,
          history (wm_of s (world_after (reply_with_agent C uid s w))) =
            history (wm_of s w) ++
              [human_turn user_message t1; ai_turn final_output t2]
    | _ =>
        history (wm_of s (world_after (reply_with_agent C uid s w))) =
          history (wm_of s w)
    end).
  { intros cm Hy.
    destruct (co_execute_hook C (before_cat_sends_message (build_final_output uid cm wm1))
                wm1) as [rh wm3] eqn:Ehook.
    assert (H3 : history wm3 = history wm1).
    { specialize (Hh (before_cat_sends_message (build_final_output uid cm wm1)) wm1).
      now rewrite Ehook in Hh. }
    destruct (reply_with_agent_run C uid s w ra wm1 cm rh wm3 Eagent Hy Ehook)
      as (w' & E & _ & Hhist).
    rewrite E. unfold outcome, world_after. cbn [fst snd].
    rewrite Hhist. destruct rh as [fo|e].
    - eexists _, _, _. rewrite H3, H1. reflexivity.
    - congruence. }
  destruct ra as [cm|e].
  - apply (Hrun cm). reflexivity.
  - destruct (contains parse_error_marker (exn_message e)) eqn:Em.
    + apply (Hrun (fallback_cat_message wm1 (exn_message e))). now split.
    + rewrite (reply_with_agent_fatal C uid s w e wm1 Eagent Em).
      unfold outcome, world_after. cbn [fst snd]. now rewrite wm_of_set_wm.
Qed.

End History.

Section LastTurns.

Variable C : collaborators.

(** Whatever the hooks and the agent do, a reply that is returned has the
    two turns of lines 592-593 at the end of the history. *)
Lemma reply_with_agent_last_turns uid s w :
  match outcome (reply_with_agent C uid s w) with
  | Ok (ChatOutput final_output) =>
      exists earlier user_message t1 t2,
        history (wm_of s (world_after (reply_with_agent C uid s w))) =
          earlier ++ [human_turn user_message t1; ai_turn final_output t2]
  | _ => True
  end.
Proof.
  destruct (co_execute_agent C (wm_of s w)) as [ra wm1] eqn:Eagent.
  assert (Hrun : forall cm, agent_yields ra wm1 cm ->
    match outcome (reply_with_agent C uid s w) with
    | Ok (ChatOutput final_output) =>
        exists earlier user_message t1 t2,
          history (wm_of s (world_after (reply_with_agent C uid s w))) =
            earlier ++ [human_turn user_message t1; ai_turn final_output t2]
    | _ => True
    end).
  { intros cm Hy.
    destruct (co_execute_hook C (before_cat_sends_message (build_final_output uid cm wm1))
                wm1) as [rh wm3] eqn:Ehook.
    destruct (reply_with_agent_run C uid s w ra wm1 cm rh wm3 Eagent Hy Ehook)
      as (w' & E & _ & Hhist).
    rewrite E. unfold outcome, world_after. cbn [fst snd].
    rewrite Hhist. destruct rh as [fo|e]; [|exact I].
    eexists _, _, _, _. reflexivity. }
  destruct ra as [cm|e].
  - apply (Hrun cm). reflexivity.
  - destruct (contains parse_error_marker (exn_message e)) eqn:Em.
    + apply (Hrun (fallback_cat_message wm1 (exn_message e))). now split.
    + rewrite (reply_with_agent_fatal C uid s w e wm1 Eagent Em). exact I.
Qed.

Lemma call_last_turns (incoming : message) (w : world) :
  let uid := match user_id incoming with Some u => u | None => py "user" end in
  match outcome (__call__ C incoming w) with
  | Ok (ChatOutput final_output) =>
      exists earlier user_message t1 t2,
        history (wm_of uid (world_after (__call__ C incoming w))) =
          earlier ++ [human_turn user_message t1; ai_turn final_output t2]
  | _ => True
  end.
Proof.
  intros uid. unfold __call__. fold uid. unfold bind. unfold outcome, world_after.
  destruct (read_message C incoming uid w) as [[evs1 [[]|e1]] w1]; [|exact I].
  unfold recall_and_reply, bind, attempt.
  destruct (recall_relevant_memories_to_working_memory C uid w1)
    as [[evs2 [[]|e2]] w2]; [|exact I].
  pose proof (reply_with_agent_last_turns uid uid w2) as Hreply.
  unfold outcome, world_after in Hreply.
  destruct (reply_with_agent C uid uid w2) as [[evs3 r3] w3].
  cbn [fst snd] in *. exact Hreply.
Qed.

(** C5.  A run of [__call__] that returns a chat output (the agent
    answered, or its parse failure was recovered) ends with a "Human" turn
    and then an "AI" turn, the latter with the content and the why-block of
    the returned output, as the last two entries of the conversation
    history of the user.  When the hooks and the agent leave the history
    alone, as its ownership by the pipeline demands, these two turns are
    exactly what such a run appends, and a run that ends in any other way,
    and so a run whose recall failed, leaves the history as it was. *)
Theorem conversation_history_update (incoming : message) (w : world) :
  let uid := match user_id incoming with Some u => u | None => py "user" end in
  (match outcome (__call__ C incoming w) with
   | Ok (ChatOutput final_output) =>
       exists earlier user_message t1 t2,
         history (wm_of uid (world_after (__call__ C incoming w))) =
           earlier ++ [human_turn user_message t1; ai_turn final_output t2]
   | _ => True
   end) /\
  (collaborators_keep_history C ->
   (match outcome (__call__ C incoming w) with
    | Ok (ChatOutput final_output) =>
        exists user_message t1 t2,
          history (wm_of uid (world_after (__call__ C incoming w))) =
            history (wm_of uid w) ++
              [human_turn user_message t1; ai_turn final_output t2]
    | _ =>
        history (wm_of uid (world_after (__call__ C incoming w))) = history (wm_of uid w)
    end) /\
   (forall evs1 w1 evs2 e w2,
      read_message C incoming uid w = (evs1, Ok tt, w1) ->
      recall_relevant_memories_to_working_memory C uid w1 = (evs2, Raise e, w2) ->
      history (wm_of uid (world_after (__call__ C incoming w))) = history (wm_of uid w))).
Proof.
  intros uid. split; [apply call_last_turns|].
  intros Hkeep.
  pose proof (keeps_read_message C Hkeep incoming uid w) as Hread.
  unfold __call__. fold uid. unfold bind. unfold outcome, world_after in *.
  destruct (read_message C incoming uid w) as [[evs1 r1] w1].
  cbn [fst snd] in Hread.
  destruct r1 as [[]|e1]; [|split; [exact Hread | intros ? ? ? ? ? H; discriminate H]].
  pose proof (keeps_recall C Hkeep uid w1) as Hrecall.
  unfold recall_and_reply, bind, attempt. unfold world_after in Hrecall.
  destruct (recall_relevant_memories_to_working_memory C uid w1)
    as [[evs2 r2] w2] eqn:Erecall.
  cbn [fst snd] in Hrecall.
  destruct r2 as [[]|e2].
  - pose proof (reply_with_agent_history C Hkeep uid uid w2) as Hreply.
    unfold outcome, world_after in Hreply.
    destruct (reply_with_agent C uid uid w2) as [[evs3 r3] w3].
    cbn [fst snd] in *. split.
    2:{ intros a b c d e0 H1 H2. injection H1 as <- <-.
        rewrite Erecall in H2. discriminate H2. }
    rewrite Hrecall, Hread in Hreply. exact Hreply.
  - cbn. split; [congruence|]. intros; congruence.
Qed.

End LastTurns.

Lemma quiet_keeps_history : collaborators_keep_history Scenario.quiet.
Proof. split; [intros [] wm; reflexivity | intros wm; reflexivity]. Qed.

Lemma conversation_history_update_witness :
  collaborators_keep_history Scenario.quiet /\
  exists final_output user_message t1 t2,
    outcome (__call__ Scenario.quiet Scenario.hi_message Scenario.empty_world)
      = Ok (ChatOutput final_output) /\
    history (wm_of Scenario.user
               (world_after (__call__ Scenario.quiet Scenario.hi_message Scenario.empty_world)))
      = [human_turn user_message t1; ai_turn final_output t2].
Proof.
  split; [exact quiet_keeps_history|].
  destruct (conversation_history_update Scenario.quiet
              Scenario.hi_message Scenario.empty_world) as [_ H].
  destruct (H quiet_keeps_history) as [H' _].
  destruct (outcome (__call__ Scenario.quiet Scenario.hi_message Scenario.empty_world))
    as [[err|final_output]|e] eqn:E; try (vm_compute in E; discriminate E).
  destruct H' as (user_message & t1 & t2 & H').
  exists final_output, user_message, t1, t2. split; [reflexivity | exact H'].
Defined.

(** ** Exceptions raised by hooks *)

Section HookExceptions.

Variable C : collaborators.

Lemma read_message_hook_exception incoming uid w h wm e wm' :
  co_execute_hook C h wm = (Raise e, wm') ->
  In (EvHook h wm) (events_of (read_message C incoming uid w)) ->
  outcome (read_message C incoming uid w) = Raise e.
Proof.
  intros Hraise. unfold events_of, outcome.
  unfold read_message, get_working_memory, split_oversized_text. run.
  destruct (find_wm uid (working_memory_list w)); run.
  all: step.
  all: try (intros Hin; cbn in Hin; in_cases Hin;
            injection Hin as <- <-; cbn in *; congruence).
  all: match goal with
       | |- context [MAX_TEXT_INPUT <? ?n] => destruct (MAX_TEXT_INPUT <? n); run
       end.
  all: try (intros Hin; cbn in Hin; in_cases Hin;
            injection Hin as <- <-; cbn in *; congruence).
  all: match goal with
       | |- context [co_string_to_docs ?C ?a ?b] =>
           destruct (co_string_to_docs C a b); run
       end.
  all: try (intros Hin; cbn in Hin; in_cases Hin;
            injection Hin as <- <-; cbn in *; congruence).
  all: match goal with
       | |- context [co_store_documents ?C ?a ?b ?c] =>
           destruct (co_store_documents C a b c) as [[] ?]; run
       end.
  all: intros Hin; cbn in Hin; in_cases Hin; injection Hin as <- <-;
    cbn in *; congruence.
Qed.

Lemma reply_with_agent_hook_exception uid s w h wm e wm' :
  co_execute_hook C h wm = (Raise e, wm') ->
  In (EvHook h wm) (events_of (reply_with_agent C uid s w)) ->
  outcome (reply_with_agent C uid s w) = Raise e.
Proof.
  intros Hraise.
  destruct (co_execute_agent C (wm_of s w)) as [ra wm1] eqn:Eagent.
  assert (Hrun : forall cm, agent_yields ra wm1 cm ->
    In (EvHook h wm) (events_of (reply_with_agent C uid s w)) ->
    outcome (reply_with_agent C uid s w) = Raise e).
  { intros cm Hy.
    destruct (co_execute_hook C (before_cat_sends_message (build_final_output uid cm wm1))
                wm1) as [rh wm3] eqn:Ehook.
    destruct (reply_with_agent_run C uid s w ra wm1 cm rh wm3 Eagent Hy Ehook)
      as (w' & E & _).
    rewrite E. unfold events_of, outcome. cbn [fst snd].
    intros Hin. cbn in Hin. in_cases Hin. injection Hin as <- <-.
    rewrite Ehook in Hraise. injection Hraise as -> _. reflexivity. }
  destruct ra as [cm|e0].
  - apply (Hrun cm). reflexivity.
  - destruct (contains parse_error_marker (exn_message e0)) eqn:Em.
    + apply (Hrun (fallback_cat_message wm1 (exn_message e0))). now split.
    + rewrite (reply_with_agent_fatal C uid s w e0 wm1 Eagent Em).
      unfold events_of. cbn. intros Hin. in_cases Hin.
Qed.

Lemma recall_and_reply_hook_exception uid s w h wm e wm' :
  co_execute_hook C h wm = (Raise e, wm') ->
  recall_hook h = false ->
  In (EvHook h wm) (events_of (recall_and_reply C uid s w)) ->
  outcome (recall_and_reply C uid s w) = Raise e.
Proof.
  intros Hraise Hout.
  pose proof (recall_events C s w) as Hev.
  pose proof (reply_with_agent_hook_exception uid s) as Hreply.
  unfold recall_and_reply, bind, attempt, events_of, outcome in *.
  destruct (recall_relevant_memories_to_working_memory C s w) as [[evs2 r2] w2].
  cbn [fst snd] in *.
  assert (Hnot : ~ In (EvHook h wm) evs2).
  { intros Hin. pose proof (recall_events_hooks _ _ _ Hev Hin). congruence. }
  destruct r2 as [[]|e2].
  - specialize (Hreply w2 h wm e wm' Hraise).
    destruct (reply_with_agent C uid s w2) as [[evs3 r3] w3]. cbn [fst snd] in *.
    intros Hin. apply in_app_or in Hin as [Hin|Hin]; tauto.
  - cbn. rewrite app_nil_r. tauto.
Qed.

(** C9 (as amended).  An exception raised by a hook that [__call__] invokes
    outside the recall ([before_cat_reads_message],
    [before_cat_sends_message]) ends the run of [__call__] and reaches its
    caller as raised.  An exception raised by a hook of the recall leaves
    [recall_relevant_memories_to_working_memory] as raised, to the [try] of
    [__call__] that encloses the recall. *)
Theorem hook_exception_propagation h wm e wm' :
  co_execute_hook C h wm = (Raise e, wm') ->
  (recall_hook h = false ->
   forall incoming w,
     In (EvHook h wm) (events_of (__call__ C incoming w)) ->
     outcome (__call__ C incoming w) = Raise e) /\
  (forall s w,
     In (EvHook h wm) (events_of (recall_relevant_memories_to_working_memory C s w)) ->
     outcome (recall_relevant_memories_to_working_memory C s w) = Raise e).
Proof.
  intros Hraise. split.
  - intros Hout incoming w.
    set (uid := match user_id incoming with Some u => u | None => py "user" end).
    pose proof (read_message_hook_exception incoming uid w h wm e wm' Hraise) as Hread.
    pose proof (recall_and_reply_hook_exception uid uid) as Hrr.
    unfold __call__. fold uid. unfold bind, events_of, outcome in *.
    destruct (read_message C incoming uid w) as [[evs1 r1] w1]. cbn [fst snd] in *.
    destruct r1 as [[]|e1].
    + specialize (Hrr w1 h wm e wm' Hraise Hout).
      destruct (recall_and_reply C uid uid w1) as [[evs2 r2] w2]. cbn [fst snd] in *.
      intros Hin. apply in_app_or in Hin as [Hin|Hin]; [|tauto].
      specialize (Hread Hin). discriminate Hread.
    + cbn [fst snd]. intros Hin. specialize (Hread Hin). congruence.
  - intros s w. now apply recall_hook_exception with (wm' := wm').
Qed.

End HookExceptions.

Lemma hook_exception_propagation_witness :
  co_execute_hook (Scenario.with_hooks Scenario.send_hook_raises Scenario.quiet)
    (before_cat_sends_message Scenario.hello_output) Scenario.hi_working_memory
    = (Raise Scenario.boom, Scenario.hi_working_memory) /\
  outcome
    (__call__ (Scenario.with_hooks Scenario.send_hook_raises Scenario.quiet)
       Scenario.hi_message Scenario.empty_world)
    = Raise Scenario.boom.
Proof.
  split; [reflexivity|].
  destruct (hook_exception_propagation
              (Scenario.with_hooks Scenario.send_hook_raises Scenario.quiet)
              (before_cat_sends_message Scenario.hello_output)
              Scenario.hi_working_memory Scenario.boom
              Scenario.hi_working_memory eq_refl) as [H _].
  apply (H eq_refl Scenario.hi_message Scenario.empty_world).
  vm_compute. repeat (first [left; reflexivity | right]).
Defined.

(** C9 (as stated) fails for the hooks of the recall: the exception that the
    [cat_recall_query] hook raises does not reach the caller of
    [__call__]. *)
Lemma recall_hook_exception_counterexample :
  In (EvHook (cat_recall_query (py "hi")) Scenario.hi_read_memory)
    (events_of
       (__call__ (Scenario.with_hooks Scenario.recall_query_hook_raises Scenario.quiet)
          Scenario.hi_message Scenario.empty_world)) /\
  co_execute_hook (Scenario.with_hooks Scenario.recall_query_hook_raises Scenario.quiet)
    (cat_recall_query (py "hi")) Scenario.hi_read_memory
    = (Raise Scenario.boom, Scenario.hi_read_memory) /\
  outcome
    (__call__ (Scenario.with_hooks Scenario.recall_query_hook_raises Scenario.quiet)
       Scenario.hi_message Scenario.empty_world)
    <> Raise Scenario.boom.
Proof.
  split; [vm_compute; right; left; reflexivity|].
  split; [reflexivity|].
  vm_compute. discriminate.
Qed.

Lemma recall_failure_outcome_witness :
  recall_relevant_memories_to_working_memory
    (Scenario.with_recall Scenario.search_fails Scenario.quiet)
    Scenario.user Scenario.hi_world
    = (events_of
         (recall_relevant_memories_to_working_memory
            (Scenario.with_recall Scenario.search_fails Scenario.quiet)
            Scenario.user Scenario.hi_world),
       Raise {| exn_class := py "ValueError"; exn_message := py "shapes not aligned" |},
       world_after
         (recall_relevant_memories_to_working_memory
            (Scenario.with_recall Scenario.search_fails Scenario.quiet)
            Scenario.user Scenario.hi_world)) /\
  outcome
    (recall_and_reply (Scenario.with_recall Scenario.search_fails Scenario.quiet)
       Scenario.user Scenario.user Scenario.hi_world)
    = Raise {| exn_class := py "TypeError";
               exn_message :=
                 py "'>=' not supported between instances of 'ValueError' and 'int'" |} /\
  outcome
    (__call__ (Scenario.with_recall Scenario.search_fails Scenario.quiet)
       Scenario.hi_message Scenario.empty_world)
    = Raise {| exn_class := py "TypeError";
               exn_message :=
                 py "'>=' not supported between instances of 'ValueError' and 'int'" |}.
Proof.
  assert (H : recall_relevant_memories_to_working_memory
    (Scenario.with_recall Scenario.search_fails Scenario.quiet)
    Scenario.user Scenario.hi_world
    = (events_of
         (recall_relevant_memories_to_working_memory
            (Scenario.with_recall Scenario.search_fails Scenario.quiet)
            Scenario.user Scenario.hi_world),
       Raise {| exn_class := py "ValueError"; exn_message := py "shapes not aligned" |},
       world_after
         (recall_relevant_memories_to_working_memory
            (Scenario.with_recall Scenario.search_fails Scenario.quiet)
            Scenario.user Scenario.hi_world))) by (vm_compute; reflexivity).
  split; [exact H|].
  destruct (recall_failure_outcome _ Scenario.user _ _ _ _ _ H) as [E _].
  split; [rewrite E; reflexivity | vm_compute; reflexivity].
Defined.

(** ** The tool index *)

Arguments tool_metadata : simpl never.

Lemma world_ext (a b : world) :
  tools a = tools b -> vectors a = vectors b ->
  working_memory_list a = working_memory_list b -> ticks a = ticks b -> a = b.
Proof. destruct a, b. cbn. intros; subst; reflexivity. Qed.

Lemma collection_ext (a b : collection) :
  points a = points b -> next_id a = next_id b -> a = b.
Proof. destruct a, b. cbn. intros; subst; reflexivity. Qed.

Lemma set_collection_same t v : set_collection t (get_collection t v) v = v.
Proof. destruct t, v; reflexivity. Qed.

Lemma with_tool_points_nil C c n : with_tool_points C c n [] = c.
Proof.
  apply collection_ext; cbn.
  - apply app_nil_r.
  - apply N.add_0_r.
Qed.

Lemma with_tool_points_cons C c n t ts :
  with_tool_points C c n (t :: ts) =
    with_tool_points C
      (store_texts c [tool_description t] [tool_metadata (co_clock C n) t]) (S n) ts.
Proof.
  unfold with_tool_points, store_texts.
  apply collection_ext; cbn -[N.of_nat].
  - now rewrite <- app_assoc.
  - rewrite Nat2N.inj_succ. lia.
Qed.

Lemma bind_modify {B} (f : world -> world) (k : unit -> M B) (w : world) :
  bind (modify f) k w = k tt (f w).
Proof. unfold bind, modify. destruct (k tt (f w)) as [[evs r] w']. reflexivity. Qed.

Lemma bind_gets {A B} (f : world -> A) (k : A -> M B) (w : world) :
  bind (gets f) k w = k (f w) w.
Proof. unfold bind, gets. destruct (k (f w) w) as [[evs r] w']. reflexivity. Qed.

Lemma bind_emit {B} (ev : event) (k : unit -> M B) (w : world) :
  bind (emit ev) k w = let '(evs, r, w') := k tt w in (ev :: evs, r, w').
Proof. reflexivity. Qed.

Lemma bind_assoc {A B D} (m : M A) (f : A -> M B) (g : B -> M D) (w : world) :
  bind (bind m f) g w = bind m (fun a => bind (f a) g) w.
Proof.
  unfold bind. destruct (m w) as [[evs1 [a|e]] w1]; [|reflexivity].
  destruct (f a w1) as [[evs2 [b|e]] w2]; [|reflexivity].
  destruct (g b w2) as [[evs3 r] w3]. now rewrite app_assoc.
Qed.

Lemma bind_ok {A B} (m : M A) (k : A -> M B) (w w1 : world) evs a :
  m w = (evs, Ok a, w1) ->
  bind m k w = let '(evs2, r, w2) := k a w1 in (evs ++ evs2, r, w2).
Proof. intros H. unfold bind. rewrite H. reflexivity. Qed.

Lemma stale_ids (live_descriptions : list str) (pts : list point) :
  map fst
    (filter (fun '(_, descr) => negb (str_in descr live_descriptions))
       (combine (map pt_id pts) (map (fun t => page_content (payload t)) pts)))
  = map pt_id (stale_points live_descriptions pts).
Proof.
  induction pts as [|p pts IH]; [reflexivity|].
  cbn [map combine filter stale_points]. unfold point_description at 1.
  destruct (negb (str_in (page_content (payload p)) live_descriptions));
    cbn [map fst]; now rewrite IH.
Qed.

Lemma id_in_In (i : point_id) (ids : list point_id) : id_in i ids = true <-> In i ids.
Proof.
  unfold id_in. rewrite existsb_exists. split.
  - intros (j & Hj & E). apply N.eqb_eq in E. now subst.
  - intros H. exists i. split; [assumption | apply N.eqb_refl].
Qed.

Lemma filter_all {A} (f : A -> bool) (l : list A) :
  (forall x, In x l -> f x = true) -> filter f l = l.
Proof.
  induction l as [|x l IH]; [reflexivity|]. intros H. cbn [filter].
  rewrite (H x (or_introl eq_refl)). f_equal. apply IH. intros y Hy. apply H. now right.
Qed.

Lemma filter_none {A} (f : A -> bool) (l : list A) :
  (forall x, In x l -> f x = false) -> filter f l = [].
Proof.
  induction l as [|x l IH]; [reflexivity|]. intros H. cbn [filter].
  rewrite (H x (or_introl eq_refl)). apply IH. intros y Hy. apply H. now right.
Qed.

Lemma NoDup_map_eq {A B} (f : A -> B) (l : list A) (x y : A) :
  NoDup (map f l) -> In x l -> In y l -> f x = f y -> x = y.
Proof.
  induction l as [|a l IH]; [easy|]. cbn [map]. intros Hnd Hx Hy E.
  inversion Hnd as [|? ? Hnot Hnd']; subst.
  destruct Hx as [->|Hx], Hy as [->|Hy]; auto.
  - exfalso. apply Hnot. rewrite E. now apply in_map.
  - exfalso. apply Hnot. rewrite <- E. now apply in_map.
Qed.

Lemma NoDup_map_filter {A B} (f : A -> B) (g : A -> bool) (l : list A) :
  NoDup (map f l) -> NoDup (map f (filter g l)).
Proof.
  induction l as [|a l IH]; [easy|]. cbn [map filter]. intros Hnd.
  inversion Hnd as [|? ? Hnot Hnd']; subst.
  destruct (g a); [|auto]. cbn [map]. constructor; [|auto].
  intros Hin. apply Hnot. apply in_map_iff in Hin as (x & E & Hx).
  apply filter_In in Hx as [Hx _]. rewrite <- E. now apply in_map.
Qed.

Lemma tool_points_ids C i n ts p :
  In p (tool_points C i n ts) -> (i <= pt_id p)%N.
Proof.
  revert i n. induction ts as [|t ts IH]; intros i n; [easy|].
  cbn [tool_points]. intros [<-|H]; [cbn; lia|].
  apply IH in H. lia.
Qed.

Lemma tool_points_descriptions C i n ts :
  map point_description (tool_points C i n ts) = map tool_description ts.
Proof.
  revert i n. induction ts as [|t ts IH]; intros i n; [reflexivity|].
  cbn [tool_points map]. now rewrite IH.
Qed.

Lemma tool_points_in C i n ts t :
  In t ts ->
  exists m p,
    In p (tool_points C i n ts) /\
    payload p = {| page_content := tool_description t;
                   doc_metadata := tool_metadata (co_clock C m) t |} /\
    In (EvAddTexts Procedural [tool_description t] [tool_metadata (co_clock C m) t])
       (tool_upserts C n ts).
Proof.
  revert i n. induction ts as [|a ts IH]; intros i n; [easy|].
  intros [->|H].
  - eexists n, _. cbn [tool_points tool_upserts]. split; [now left|].
    split; [reflexivity | now left].
  - destruct (IH (N.succ i) (S n) H) as (m & p & Hp & E & Hev).
    exists m, p. cbn [tool_points tool_upserts]. split; [now right|].
    split; [exact E | now right].
Qed.

(** The [k]-th tool of [ts] is upserted by the [k]-th upsert, at the
    [k]-th reading of the clock from [n] on. *)
Lemma tool_points_at C i n ts k t :
  nth_error ts k = Some t ->
  nth_error (tool_upserts C n ts) k =
    Some (EvAddTexts Procedural [tool_description t]
            [tool_metadata (co_clock C (n + k)) t]) /\
  exists p,
    In p (tool_points C i n ts) /\
    payload p = {| page_content := tool_description t;
                   doc_metadata := tool_metadata (co_clock C (n + k)) t |}.
Proof.
  revert i n k. induction ts as [|a ts IH]; intros i n k; [now destruct k|].
  destruct k as [|k]; cbn [nth_error tool_points tool_upserts].
  - intros E. injection E as ->. rewrite Nat.add_0_r. split; [reflexivity|].
    eexists. split; [now left | reflexivity].
  - intros E. destruct (IH (N.succ i) (S n) k E) as (Hev & p & Hp & Epay).
    replace (n + S k) with (S n + k) by lia. split; [exact Hev|].
    exists p. split; [now right | exact Epay].
Qed.

Lemma tool_upserts_length C n ts : length (tool_upserts C n ts) = length ts.
Proof.
  revert n. induction ts as [|t ts IH]; intros n; [reflexivity|].
  cbn [tool_upserts length]. now rewrite IH.
Qed.

Lemma tool_upserts_kind C n ts :
  filter is_delete (tool_upserts C n ts) = [] /\
  filter is_add_texts (tool_upserts C n ts) = tool_upserts C n ts.
Proof.
  revert n. induction ts as [|t ts IH]; intros n; [easy|].
  cbn [tool_upserts filter is_delete is_add_texts].
  destruct (IH (S n)) as [-> ->]. easy.
Qed.

Section ToolIndex.

Variable C : collaborators.

(** The loop of lines 265-279. *)
Lemma embed_loop_run (descs : list str) (l : list tool) (w : world) :
  for_each l (fun t =>
    if negb (str_in (tool_description t) descs)
    then
      now <- time_time C ;;
      add_texts Procedural [tool_description t] [tool_metadata now t]
    else ret tt) w =
  (tool_upserts C (ticks w) (missing_tools descs l), Ok tt,
   set_vectors
     (set_collection Procedural
        (with_tool_points C (procedural (vectors w)) (ticks w) (missing_tools descs l))
        (vectors w))
     (set_ticks (ticks w + length (missing_tools descs l)) w)).
Proof.
  revert w. induction l as [|t l IH]; intros w.
  - cbn [for_each missing_tools filter tool_upserts length]. unfold ret.
    rewrite with_tool_points_nil. f_equal.
    apply world_ext; try reflexivity; autorewrite with world.
    + symmetry. apply (set_collection_same Procedural).
    + lia.
  - cbn [for_each missing_tools filter]. unfold bind at 1.
    destruct (negb (str_in (tool_description t) descs)) eqn:E.
    + unfold time_time, add_texts, bind, emit, modify.
      rewrite IH. cbn [tool_upserts length app fst snd].
      fold (missing_tools descs l). f_equal.
      rewrite with_tool_points_cons.
      apply world_ext; try reflexivity; autorewrite with world.
      lia.
    + unfold ret at 1. rewrite IH. reflexivity.
Qed.


(** The run of [embed_tools]. *)
Lemma embed_tools_run (w : world) :
  let live := map (co_augment_tool C) (tools w) in
  let c := procedural (vectors w) in
  let new := missing_tools (map point_description (points c)) live in
  let stale := stale_points (map tool_description live) (points c) in
  let c1 := with_tool_points C c (ticks w) new in
  embed_tools C w =
    (EvGetAllPoints Procedural :: tool_upserts C (ticks w) new ++
       match stale with
       | [] => []
       | _ :: _ => [EvDelete Procedural (map pt_id stale)]
       end,
     Ok tt,
     set_vectors
       (set_collection Procedural
          match stale with
          | [] => c1
          | _ :: _ => delete_points (map pt_id stale) c1
          end (vectors w))
       (set_ticks (ticks w + length new) (set_tools live w))).
Proof.
  intros live c new stale c1.
  unfold embed_tools. rewrite bind_modify.
  unfold get_all_points. rewrite bind_assoc, bind_emit, bind_gets, bind_gets.
  rewrite (bind_ok _ _ _ _ _ _ (embed_loop_run _ _ _)).
  rewrite stale_ids. autorewrite with world.
  subst c1 stale new c live. unfold point_description. cbn [get_collection].
  destruct (stale_points (map tool_description (map (co_augment_tool C) (tools w)))
              (points (procedural (vectors w)))) as [|p stale'].
  - unfold Nat.ltb. cbn. rewrite app_nil_r. reflexivity.
  - unfold Nat.ltb. cbn. reflexivity.
Qed.


Lemma embed_tools_points (w : world) :
  let live := map (co_augment_tool C) (tools w) in
  let c := procedural (vectors w) in
  let new := missing_tools (map point_description (points c)) live in
  let stale := stale_points (map tool_description live) (points c) in
  points (procedural (vectors (world_after (embed_tools C w)))) =
    filter (fun p => negb (id_in (pt_id p) (map pt_id stale)))
      (points c ++ tool_points C (next_id c) (ticks w) new).
Proof.
  intros live c new stale. rewrite embed_tools_run. unfold world_after.
  cbn [snd]. autorewrite with world. fold live c new stale.
  destruct stale as [|p stale']; [|reflexivity].
  cbn [map id_in existsb negb]. symmetry. apply filter_all. reflexivity.
Qed.

(** Which points survive the synchronisation. *)
Lemma embed_tools_keeps (w : world) (p : point) :
  wf_collection (procedural (vectors w)) ->
  let live := map (co_augment_tool C) (tools w) in
  let c := procedural (vectors w) in
  let new := missing_tools (map point_description (points c)) live in
  In p (points (procedural (vectors (world_after (embed_tools C w))))) <->
  (In p (points c) /\ In (point_description p) (map tool_description live)) \/
  In p (tool_points C (next_id c) (ticks w) new).
Proof.
  intros [Hnd Hlt] live c new. rewrite embed_tools_points. fold live c new.
  set (stale := stale_points (map tool_description live) (points c)).
  assert (Hstale : forall q, In q stale <->
            In q (points c) /\ ~ In (point_description q) (map tool_description live)).
  { intros q. unfold stale, stale_points. rewrite filter_In.
    rewrite negb_true_iff, str_in_false. reflexivity. }
  rewrite filter_In, in_app_iff, negb_true_iff.
  assert (Hid : id_in (pt_id p) (map pt_id stale) = false <->
                ~ In (pt_id p) (map pt_id stale)).
  { rewrite <- id_in_In. destruct (id_in (pt_id p) (map pt_id stale)); split;
      intros; congruence. }
  rewrite Hid. split.
  - intros [[Hp|Hp] Hkeep]; [left | now right].
    split; [assumption|].
    destruct (str_in (point_description p) (map tool_description live)) eqn:E.
    + now apply str_in_In.
    + exfalso. apply Hkeep. apply in_map. apply Hstale. split; [assumption|].
      now apply str_in_false.
  - intros [[Hp Hd]|Hp].
    + split; [now left|]. intros Hin. apply in_map_iff in Hin as (q & E & Hq).
      apply Hstale in Hq as [Hq Hnot]. apply Hnot.
      assert (q = p) by (apply (NoDup_map_eq pt_id (points c)); assumption).
      now subst.
    + split; [now right|]. intros Hin. apply in_map_iff in Hin as (q & E & Hq).
      apply Hstale in Hq as [Hq _]. apply Hlt in Hq.
      apply tool_points_ids in Hp. fold c in Hq. lia.
Qed.

(** After the synchronisation the persisted descriptions are those of the
    live tools. *)
Lemma embed_tools_descriptions (w : world) (d : str) :
  wf_collection (procedural (vectors w)) ->
  In d (map point_description
          (points (procedural (vectors (world_after (embed_tools C w)))))) <->
  In d (map tool_description (map (co_augment_tool C) (tools w))).
Proof.
  intros Hwf. set (live := map (co_augment_tool C) (tools w)).
  set (c := procedural (vectors w)).
  set (new := missing_tools (map point_description (points c)) live).
  rewrite in_map_iff. split.
  - intros (p & <- & Hp). apply (embed_tools_keeps w p Hwf) in Hp as [[_ H]|H].
    + exact H.
    + fold live c new in H. apply (in_map point_description) in H.
      rewrite tool_points_descriptions in H.
      apply in_map_iff in H as (t & <- & Ht).
      apply filter_In in Ht as [Ht _]. now apply in_map.
  - intros Hd.
    destruct (str_in d (map point_description (points c))) eqn:E.
    + apply str_in_In in E. apply in_map_iff in E as (p & <- & Hp).
      exists p. split; [reflexivity|]. apply (embed_tools_keeps w p Hwf).
      left. split; assumption.
    + apply in_map_iff in Hd as (t & <- & Ht).
      assert (Hnew : In t new).
      { apply filter_In. split; [assumption|]. now rewrite E. }
      destruct (tool_points_in C (next_id c) (ticks w) new t Hnew)
        as (m & p & Hp & Epay & _).
      exists p. split.
      * unfold point_description. now rewrite Epay.
      * apply (embed_tools_keeps w p Hwf). now right.
Qed.


(** C7.  [embed_tools] reconciles the persisted records with the live tools
    by equality of the description strings.  Every live tool whose
    description no persisted record holds is upserted, alone, with the
    metadata [{source: "tool", when, name, docstring}], and its record is
    persisted afterwards; [when] is the time read from the clock for that
    upsert: the upserts are made in the order of the live tools, one
    reading of [time.time()] each, so that the [k]-th upsert of the run
    carries the [k]-th reading of the clock made from the start of the
    run.  Every persisted record whose description no live
    tool has is gone afterwards, and the other records stay; the deletions
    are one call to [delete] with the ids of all these records (no call when
    there is none); afterwards the persisted descriptions are those of the
    live tools. *)
Theorem embed_tools_reconciles (w : world) :
  wf_collection (procedural (vectors w)) ->
  let live := map (co_augment_tool C) (tools w) in
  let persisted := points (procedural (vectors w)) in
  let stale := stale_points (map tool_description live) persisted in
  let evs := events_of (embed_tools C w) in
  let after := points (procedural (vectors (world_after (embed_tools C w)))) in
  (forall t,
     In t live ->
     ~ In (tool_description t) (map point_description persisted) ->
     exists k,
       nth_error (missing_tools (map point_description persisted) live) k = Some t /\
       nth_error (filter is_add_texts evs) k =
         Some (EvAddTexts Procedural [tool_description t]
                 [{| md_source := py "tool";
                     md_when := co_clock C (ticks w + k);
                     md_name := Some (tool_name t);
                     md_docstring := Some (tool_docstring t) |}]) /\
       exists p,
         In p after /\
         payload p =
           {| page_content := tool_description t;
              doc_metadata :=
                {| md_source := py "tool";
                   md_when := co_clock C (ticks w + k);
                   md_name := Some (tool_name t);
                   md_docstring := Some (tool_docstring t) |} |}) /\
  length (filter is_add_texts evs) =
    length (missing_tools (map point_description persisted) live) /\
  ticks (world_after (embed_tools C w)) =
    ticks w + length (filter is_add_texts evs) /\
  (forall p,
     In p persisted ->
     ~ In (point_description p) (map tool_description live) ->
     ~ In p after) /\
  (forall p,
     In p persisted ->
     In (point_description p) (map tool_description live) ->
     In p after) /\
  filter is_delete evs =
    match stale with
    | [] => []
    | _ :: _ => [EvDelete Procedural (map pt_id stale)]
    end /\
  (forall d,
     In d (map point_description after) <-> In d (map tool_description live)).
Proof.
  intros Hwf live persisted stale evs after.
  set (c := procedural (vectors w)).
  set (new := missing_tools (map point_description (points c)) live).
  assert (Hevs : evs = EvGetAllPoints Procedural :: tool_upserts C (ticks w) new ++
            match stale with
            | [] => []
            | _ :: _ => [EvDelete Procedural (map pt_id stale)]
            end).
  { unfold evs. rewrite embed_tools_run. reflexivity. }
  assert (Hadds : filter is_add_texts evs = tool_upserts C (ticks w) new).
  { rewrite Hevs. cbn [filter is_add_texts]. rewrite filter_app.
    destruct (tool_upserts_kind C (ticks w) new) as [_ ->].
    destruct stale; cbn [filter is_add_texts]; apply app_nil_r. }
  pose proof (tool_upserts_length C (ticks w) new) as Hlen.
  split; [|split; [|split; [|split; [|split; [|split]]]]].
  - intros t Ht Hnot.
    assert (Hnew : In t new).
    { apply filter_In. split; [assumption|]. apply negb_true_iff.
      now apply str_in_false. }
    apply In_nth_error in Hnew as [k Hk].
    destruct (tool_points_at C (next_id c) (ticks w) new k t Hk)
      as (Hev & p & Hp & Epay).
    exists k. split; [exact Hk|]. split.
    + rewrite Hadds. exact Hev.
    + exists p. split; [|exact Epay].
      apply (embed_tools_keeps w p Hwf). now right.
  - rewrite Hadds. exact Hlen.
  - rewrite Hadds, Hlen. unfold world_after. rewrite embed_tools_run.
    cbn [snd]. autorewrite with world. reflexivity.
  - intros p Hp Hnot Hin. apply (embed_tools_keeps w p Hwf) in Hin as [[_ H]|H].
    + contradiction.
    + destruct Hwf as [_ Hlt]. apply Hlt in Hp. apply tool_points_ids in H.
      unfold c in *. lia.
  - intros p Hp Hd. apply (embed_tools_keeps w p Hwf). left. split; assumption.
  - rewrite Hevs. cbn [filter is_delete]. rewrite filter_app.
    destruct (tool_upserts_kind C (ticks w) new) as [-> _].
    destruct stale; reflexivity.
  - intros d. now apply embed_tools_descriptions.
Qed.

(** C6.  [embed_tools] is idempotent: run again on the world the first run
    left, with the descriptions of the tools unchanged, it makes no upsert
    and no delete and leaves every collection as it is, so no record is
    persisted twice; and when the live tools and the records of the start
    had pairwise distinct descriptions, so have the records at the end. *)
Theorem embed_tools_idempotent (w : world) :
  wf_collection (procedural (vectors w)) ->
  let w1 := world_after (embed_tools C w) in
  map tool_description (map (co_augment_tool C) (tools w1))
    = map tool_description (tools w1) ->
  let second := embed_tools C w1 in
  events_of second = [EvGetAllPoints Procedural] /\
  filter is_add_texts (events_of second) = [] /\
  filter is_delete (events_of second) = [] /\
  outcome second = Ok tt /\
  vectors (world_after second) = vectors w1 /\
  (NoDup (map tool_description (tools w1)) ->
   NoDup (stored_texts (procedural (vectors w))) ->
   NoDup (stored_texts (procedural (vectors (world_after second))))).
Proof.
  intros Hwf w1 Hsame second.
  assert (Htools : tools w1 = map (co_augment_tool C) (tools w)).
  { unfold w1. rewrite embed_tools_run. reflexivity. }
  assert (Hdesc : forall d,
            In d (map point_description (points (procedural (vectors w1)))) <->
            In d (map tool_description (tools w1))).
  { intros d. rewrite Htools. now apply embed_tools_descriptions. }
  assert (Hnew : missing_tools (map point_description (points (procedural (vectors w1))))
                   (map (co_augment_tool C) (tools w1)) = []).
  { apply filter_none. intros t Ht. apply negb_false_iff, str_in_In, Hdesc.
    rewrite <- Hsame. now apply in_map. }
  assert (Hstale : stale_points (map tool_description (map (co_augment_tool C) (tools w1)))
                     (points (procedural (vectors w1))) = []).
  { apply filter_none. intros p Hp. apply negb_false_iff, str_in_In.
    rewrite Hsame. apply Hdesc. now apply in_map. }
  assert (Hrun : second =
            ([EvGetAllPoints Procedural], Ok tt,
             set_vectors (vectors w1)
               (set_ticks (ticks w1 + 0)
                  (set_tools (map (co_augment_tool C) (tools w1)) w1)))).
  { unfold second. rewrite embed_tools_run, Hnew, Hstale.
    cbn [tool_upserts app length]. rewrite with_tool_points_nil.
    now rewrite (set_collection_same Procedural). }
  rewrite Hrun. unfold events_of, outcome, world_after. cbn [fst snd].
  repeat split.
  intros Hlive Hold. autorewrite with world.
  unfold stored_texts in *.
  change (map (fun p => page_content (payload p))) with (map point_description) in *.
  unfold w1. rewrite embed_tools_points. apply NoDup_map_filter.
  rewrite map_app, tool_points_descriptions.
  set (descs := map point_description (points (procedural (vectors w)))) in *.
  set (live := map (co_augment_tool C) (tools w)) in *.
  rewrite Htools in Hlive. fold live in Hlive.
  apply NoDup_app; [exact Hold | |].
  - now apply NoDup_map_filter.
  - intros d Hd Hin. apply in_map_iff in Hin as (t & <- & Ht).
    apply filter_In in Ht as [_ Ht]. apply negb_true_iff, str_in_false in Ht.
    contradiction.
Qed.

End ToolIndex.

Lemma abc_world_wf : wf_collection (procedural (vectors Scenario.abc_world)).
Proof.
  split.
  - cbn. repeat constructor; cbn; intuition discriminate.
  - intros p [<-|[<-|[<-|[]]]]; reflexivity.
Qed.

(** The specification's example: A, B, C persisted and A, C, D live. *)
Lemma embed_tools_reconciles_witness :
  wf_collection (procedural (vectors Scenario.abc_world)) /\
  filter is_delete (events_of (embed_tools Scenario.quiet Scenario.abc_world))
    = [EvDelete Procedural [1%N]] /\
  filter is_add_texts (events_of (embed_tools Scenario.quiet Scenario.abc_world))
    = [EvAddTexts Procedural [py "D"]
         [tool_metadata 0%Q (Scenario.tool_described "D")]] /\
  stored_texts
    (procedural (vectors (world_after (embed_tools Scenario.quiet Scenario.abc_world))))
    = [py "A"; py "C"; py "D"].
Proof.
  split; [exact abc_world_wf|].
  destruct (embed_tools_reconciles Scenario.quiet Scenario.abc_world abc_world_wf)
    as (_ & _ & _ & _ & _ & Hdel & _).
  split; [rewrite Hdel; reflexivity|].
  split; vm_compute; reflexivity.
Defined.

Lemma embed_tools_idempotent_witness :
  wf_collection (procedural (vectors Scenario.abc_world)) /\
  map tool_description
    (map (co_augment_tool Scenario.quiet)
       (tools (world_after (embed_tools Scenario.quiet Scenario.abc_world))))
    = map tool_description
        (tools (world_after (embed_tools Scenario.quiet Scenario.abc_world))) /\
  events_of
    (embed_tools Scenario.quiet
       (world_after (embed_tools Scenario.quiet Scenario.abc_world)))
    = [EvGetAllPoints Procedural] /\
  vectors
    (world_after
       (embed_tools Scenario.quiet
          (world_after (embed_tools Scenario.quiet Scenario.abc_world))))
    = vectors (world_after (embed_tools Scenario.quiet Scenario.abc_world)).
Proof.
  split; [exact abc_world_wf|]. split; [reflexivity|].
  destruct (embed_tools_idempotent Scenario.quiet Scenario.abc_world abc_world_wf eq_refl)
    as (Hev & _ & _ & _ & Hv & _).
  split; [exact Hev | exact Hv].
Defined.

(** * Further properties *)

(** ** Language model and embedder selection *)

Section Selection.

Variable F : factories.

(** X1.  When the selected class resolves, a missing configuration row or a
    failure of its factory does not make [get_language_model] fail: it
    answers what the default factory answers on the empty configuration. *)
Theorem get_language_model_falls_back selected cls Factory :
  get_setting_by_name F (py "llm_selected") = Some selected ->
  dict_get (py "name") (setting_value selected) = Some cls ->
  getattr_llms F cls = Some Factory ->
  (get_setting_by_name F cls = None \/
   exists c e,
     get_setting_by_name F cls = Some c /\ Factory (setting_value c) = Raise e) ->
  get_language_model F = LLMDefaultConfig F [].
Proof.
  intros Hsel Hname Hattr Hfail. unfold get_language_model.
  rewrite Hsel, Hname, Hattr.
  destruct Hfail as [Hnone | (c & e & Hc & He)].
  - rewrite Hnone. reflexivity.
  - rewrite Hc, He. reflexivity.
Qed.

(** X3.  When an embedder is selected in the settings, the language model
    plays no part in the choice, and nothing is caught: a missing
    configuration row is a [TypeError] and an exception of the selected
    factory is raised as it is. *)
Theorem selected_embedder_overrides_model selected :
  get_setting_by_name F (py "embedder_selected") = Some selected ->
  (forall m1 m2, get_language_embedder F m1 = get_language_embedder F m2) /\
  (forall m cls Factory,
     dict_get (py "name") (setting_value selected) = Some cls ->
     getattr_embedders F cls = Some Factory ->
     get_language_embedder F m =
       match get_setting_by_name F cls with
       | None => Raise not_subscriptable
       | Some c => Factory (setting_value c)
       end).
Proof.
  intros Hsel. split.
  - intros m1 m2. unfold get_language_embedder. rewrite Hsel. reflexivity.
  - intros m cls Factory Hname Hattr. unfold get_language_embedder.
    rewrite Hsel, Hname, Hattr. reflexivity.
Qed.

(** X4.  [load_natural_language] chooses the embedder for the language
    model it has just selected, so that with no embedder selected an OpenAI
    model hands its API key to the OpenAI embedder.  It is not atomic: when
    the model is selected and the choice of the embedder raises, the cat is
    left with the new model and the embedder it had; when the selection of
    the model raises, nothing is assigned. *)
Theorem load_natural_language_outcome (nl : natural_language) :
  (match load_natural_language F nl with
   | (Ok _, nl') =>
       exists m emb,
         get_language_model F = Ok m /\
         get_language_embedder F m = Ok emb /\
         nl' = {| _llm := Some m; cat_embedder := Some emb |}
   | (Raise e, nl') =>
       (get_language_model F = Raise e /\ nl' = nl) \/
       (exists m,
          get_language_model F = Ok m /\
          get_language_embedder F m = Raise e /\
          _llm nl' = Some m /\ cat_embedder nl' = cat_embedder nl)
   end) /\
  (forall key emb,
     get_language_model F = Ok (OpenAI key) ->
     get_setting_by_name F (py "embedder_selected") = None ->
     EmbedderOpenAIConfig F [(py "openai_api_key", key)] = Ok emb ->
     load_natural_language F nl =
       (Ok tt, {| _llm := Some (OpenAI key); cat_embedder := Some emb |})).
Proof.
  split.
  - unfold load_natural_language.
    destruct (get_language_model F) as [m|e]; [|left; auto].
    destruct (get_language_embedder F m) as [emb|e] eqn:He.
    + exists m, emb. auto.
    + right. exists m. auto.
  - intros key emb Hm Hsel Hemb. unfold load_natural_language. rewrite Hm.
    unfold get_language_embedder. rewrite Hsel, Hemb. reflexivity.
Qed.

End Selection.

Lemma get_language_model_falls_back_witness :
  get_setting_by_name (Setup.factories_on Setup.keyless_rows) (py "llm_selected")
    = Some {| setting_value := [(py "name", py "LLMOpenAIConfig")] |} /\
  getattr_llms (Setup.factories_on Setup.keyless_rows) (py "LLMOpenAIConfig")
    = Some Setup.openai_factory /\
  Setup.openai_factory [] = Raise (key_error (py "openai_api_key")) /\
  get_language_model (Setup.factories_on Setup.keyless_rows)
    = Ok Setup.default_model.
Proof.
  split; [reflexivity|]. split; [reflexivity|]. split; [reflexivity|].
  rewrite (get_language_model_falls_back (Setup.factories_on Setup.keyless_rows)
             {| setting_value := [(py "name", py "LLMOpenAIConfig")] |}
             (py "LLMOpenAIConfig") Setup.openai_factory
             eq_refl eq_refl eq_refl).
  - reflexivity.
  - right. exists {| setting_value := [] |}, (key_error (py "openai_api_key")).
    split; reflexivity.
Defined.

Lemma selected_embedder_overrides_model_witness :
  get_setting_by_name (Setup.factories_on Setup.cohere_embedder_rows)
    (py "embedder_selected")
    = Some {| setting_value := [(py "name", py "EmbedderCohereConfig")] |} /\
  get_language_embedder (Setup.factories_on Setup.cohere_embedder_rows)
    (OpenAI (py "sk-1"))
    = Raise {| exn_class := py "ConnectionError"; exn_message := py "no route" |}.
Proof.
  split; [reflexivity|].
  destruct (selected_embedder_overrides_model
              (Setup.factories_on Setup.cohere_embedder_rows)
              {| setting_value := [(py "name", py "EmbedderCohereConfig")] |}
              eq_refl) as [_ H].
  rewrite (H (OpenAI (py "sk-1")) (py "EmbedderCohereConfig") Setup.cohere_down
             eq_refl eq_refl).
  reflexivity.
Defined.

Lemma load_natural_language_outcome_witness :
  get_language_model (Setup.factories_on Setup.openai_rows) = Ok (OpenAI (py "sk-1")) /\
  load_natural_language (Setup.factories_on Setup.openai_rows) Setup.nothing_loaded
    = (Ok tt,
       {| _llm := Some (OpenAI (py "sk-1"));
          cat_embedder :=
            Some {| embedder_class := py "EmbedderOpenAIConfig";
                    embedder_config := [(py "openai_api_key", py "sk-1")] |} |}).
Proof.
  split; [reflexivity|].
  destruct (load_natural_language_outcome (Setup.factories_on Setup.openai_rows)
              Setup.nothing_loaded) as [_ H].
  apply (H (py "sk-1")); reflexivity.
Defined.

(** ** Websocket notifications *)

Lemma get_working_memory_run (uid : str) (w : world) :
  exists w1,
    get_working_memory uid w = ([], Ok (wm_of uid w), w1) /\
    forall u, wm_of u w1 = wm_of u w.
Proof.
  unfold get_working_memory, wm_of.
  destruct (find_wm uid (working_memory_list w)) as [wm|] eqn:E.
  - exists w. split; [reflexivity|]. reflexivity.
  - eexists. split; [reflexivity|]. intros u.
    unfold set_working_memory_list. cbn [working_memory_list].
    induction (working_memory_list w) as [|[k x] l IH].
    + cbn. destruct (str_eqb uid u) eqn:Eu; [|reflexivity].
      apply str_eqb_eq in Eu. now subst.
    + cbn in *. destruct (str_eqb k uid); [discriminate|].
      destruct (str_eqb k u); [reflexivity|]. now apply IH.
Qed.

(** X5.  [send_ws_message] rejects a message type outside [MSG_TYPES] with a
    [ValueError] that names the type and lists the valid ones; no put is
    scheduled and no working memory changes. *)
Theorem send_ws_message_rejects content msg_type working_memory w tasks :
  str_in msg_type MSG_TYPES = false ->
  exists w',
    send_ws_message content msg_type working_memory w tasks =
      (Raise {| exn_class := py "ValueError";
                exn_message :=
                  py "The message type `" ++ msg_type
                  ++ py "` is not valid. Valid types: notification, chat, error, chat_token" |},
       w', tasks) /\
    forall u, wm_of u w' = wm_of u w.
Proof.
  intros Hbad. unfold send_ws_message.
  destruct working_memory as [wm|].
  - rewrite Hbad. exists w. split; reflexivity.
  - destruct (get_working_memory_run default_user_id w) as (w1 & E & Hsame).
    rewrite E, Hbad. exists w1. split; [reflexivity | exact Hsame].
Qed.

(** X6.  For a message type of [MSG_TYPES], [send_ws_message] schedules one
    put, after those already scheduled, on the queue of the working memory
    it is given, or of the default user's when it is given none.  The
    message carries the type; for "error" it carries the fixed name
    "GenericError" and the content as description, for the other types the
    content. *)
Theorem send_ws_message_schedules_one content msg_type working_memory w tasks :
  str_in msg_type MSG_TYPES = true ->
  exists w',
    send_ws_message content msg_type working_memory w tasks =
      (Ok tt, w',
       tasks ++
         [{| task_working_memory :=
               match working_memory with
               | Some wm => wm
               | None => wm_of default_user_id w
               end;
             task_message :=
               if str_eqb msg_type (py "error")
               then WsError (py "error") (py "GenericError") content
               else WsContent msg_type content |}]) /\
    forall u, wm_of u w' = wm_of u w.
Proof.
  intros Hok. unfold send_ws_message.
  assert (Herr : str_eqb msg_type (py "error") = true -> msg_type = py "error")
    by apply str_eqb_eq.
  destruct working_memory as [wm|].
  - rewrite Hok. cbn [negb]. exists w.
    destruct (str_eqb msg_type (py "error")); [rewrite Herr by reflexivity|];
      split; reflexivity.
  - destruct (get_working_memory_run default_user_id w) as (w1 & E & Hsame).
    rewrite E, Hok. cbn [negb]. exists w1.
    destruct (str_eqb msg_type (py "error")); [rewrite Herr by reflexivity|];
      (split; [reflexivity | exact Hsame]).
Qed.

Lemma send_ws_message_rejects_witness :
  str_in (py "warning") MSG_TYPES = false /\
  fst (fst (send_ws_message (py "hi") (py "warning") None Scenario.empty_world []))
    = Raise {| exn_class := py "ValueError";
               exn_message :=
                 py "The message type `warning` is not valid. Valid types: notification, chat, error, chat_token" |}.
Proof.
  split; [reflexivity|].
  destruct (send_ws_message_rejects (py "hi") (py "warning") None
              Scenario.empty_world [] eq_refl) as (w' & E & _).
  rewrite E. reflexivity.
Defined.

Lemma send_ws_message_schedules_one_witness :
  str_in (py "error") MSG_TYPES = true /\
  snd (send_ws_message (py "disk full") (py "error") None Scenario.hi_world [])
    = [{| task_working_memory := wm_of (py "user") Scenario.hi_world;
          task_message :=
            WsError (py "error") (py "GenericError") (py "disk full") |}].
Proof.
  split; [reflexivity|].
  destruct (send_ws_message_schedules_one (py "disk full") (py "error") None
              Scenario.hi_world [] eq_refl) as (w' & E & _).
  rewrite E. reflexivity.
Defined.

(** ** What the reading of the message and the recall leave alone *)

Lemma preserves_bind {A B X} (f : world -> X) (m : M A) (k : A -> M B) :
  preserves f m -> (forall a, preserves f (k a)) -> preserves f (bind m k).
Proof.
  intros Hm Hk w. specialize (Hm w). unfold world_after, bind in *.
  destruct (m w) as [[e1 r] w1]. cbn in *. destruct r as [a|e]; [|exact Hm].
  specialize (Hk a w1). unfold world_after in Hk.
  destruct (k a w1) as [[e2 r2] w2]. cbn in *. congruence.
Qed.

Lemma preserves_ret {A X} (f : world -> X) (a : A) : preserves f (ret a).
Proof. intros w. reflexivity. Qed.

Lemma preserves_raise {A X} (f : world -> X) e : preserves f (@raise A e).
Proof. intros w. reflexivity. Qed.

Lemma preserves_emit {X} (f : world -> X) ev : preserves f (emit ev).
Proof. intros w. reflexivity. Qed.

Lemma preserves_gets {A X} (f : world -> X) (g : world -> A) : preserves f (gets g).
Proof. intros w. reflexivity. Qed.

Lemma preserves_attempt {A X} (f : world -> X) (m : M A) :
  preserves f m -> preserves f (attempt m).
Proof.
  intros Hm w. specialize (Hm w). unfold world_after, attempt in *.
  destruct (m w) as [[e r] w1]. exact Hm.
Qed.

Lemma preserves_for_each {A X} (f : world -> X) (l : list A) (body : A -> M unit) :
  (forall x, preserves f (body x)) -> preserves f (for_each l body).
Proof.
  intros Hb. induction l as [|x l IH]; cbn [for_each].
  - apply preserves_ret.
  - apply preserves_bind; [apply Hb | intros _; exact IH].
Qed.

Section Frames.

Variable C : collaborators.
Context {X : Type}.
Variable s : str.
Variable f : world -> X.

Section BeforeAgent.

Hypothesis Hframe : before_agent_frame s f.

Lemma preserves_write_wm g : preserves f (write_wm s g).
Proof. intros w. apply Hframe. Qed.

Lemma preserves_on_session {A} (g : working_memory -> result A * working_memory) :
  preserves f (on_session s g).
Proof.
  intros w. unfold on_session, world_after.
  destruct (g (wm_of s w)) as [r wm']. apply Hframe.
Qed.

Lemma preserves_execute_hook h : preserves f (execute_hook C h s).
Proof.
  unfold execute_hook, read_wm.
  apply preserves_bind; [apply preserves_gets | intros wm].
  apply preserves_bind; [apply preserves_emit | intros _].
  apply preserves_on_session.
Qed.

Lemma preserves_store_documents docs source : preserves f (store_documents C docs source).
Proof.
  intros w. unfold store_documents, bind, emit, world_after. cbn.
  destruct (co_store_documents C docs source (declarative (vectors w))) as [r c].
  apply Hframe.
Qed.

Lemma preserves_get_working_memory : preserves f (get_working_memory s).
Proof.
  intros w. unfold get_working_memory, world_after.
  destruct (find_wm s (working_memory_list w)); [reflexivity|]. apply Hframe.
Qed.

Lemma preserves_split_oversized_text : preserves f (split_oversized_text C s).
Proof.
  unfold split_oversized_text, read_wm.
  apply preserves_bind; [apply preserves_gets | intros wm].
  destruct (MAX_TEXT_INPUT <? length (text (user_message_json wm)));
    [|apply preserves_ret].
  apply preserves_bind; [apply preserves_write_wm | intros _].
  apply preserves_bind; [intros w; reflexivity | intros docs].
  apply preserves_store_documents.
Qed.

Lemma preserves_read_message incoming : preserves f (read_message C incoming s).
Proof.
  unfold read_message, read_wm.
  apply preserves_bind; [apply preserves_get_working_memory | intros _].
  apply preserves_bind; [apply preserves_write_wm | intros _].
  apply preserves_bind; [apply preserves_gets | intros wm].
  apply preserves_bind; [apply preserves_execute_hook | intros m].
  apply preserves_bind; [apply preserves_write_wm | intros _].
  apply preserves_split_oversized_text.
Qed.

Lemma preserves_recall :
  preserves f (recall_relevant_memories_to_working_memory C s).
Proof.
  unfold recall_relevant_memories_to_working_memory, read_wm.
  apply preserves_bind; [apply preserves_gets | intros wm].
  apply preserves_bind; [apply preserves_execute_hook | intros q].
  apply preserves_bind; [intros w; reflexivity | intros v].
  apply preserves_bind; [apply preserves_write_wm | intros _].
  apply preserves_bind; [apply preserves_execute_hook | intros _].
  apply preserves_bind; [apply preserves_execute_hook | intros c1].
  apply preserves_bind; [apply preserves_execute_hook | intros c2].
  apply preserves_bind; [apply preserves_execute_hook | intros c3].
  apply preserves_bind;
    [|intros _; exact (preserves_execute_hook after_cat_recalls_memories)].
  apply preserves_for_each. intros [config memory_type].
  apply preserves_bind; [intros w; reflexivity | intros ms].
  apply preserves_write_wm.
Qed.

End BeforeAgent.

End Frames.

Lemma episodic_frame s : before_agent_frame s (fun w => episodic (vectors w)).
Proof. repeat split; reflexivity. Qed.

(** The two ways [reply_with_agent] goes: the agent fails for good, or the
    reply is persisted and handed to the pre-send hook. *)
Lemma reply_with_agent_cases (C : collaborators) uid s w :
  (exists e wm1,
     reply_with_agent C uid s w =
       ([EvExecuteAgent (wm_of s w)], Raise e, set_wm s wm1 w))
  \/
  (exists cm wm1 rh wm3 w',
     co_execute_hook C (before_cat_sends_message (build_final_output uid cm wm1)) wm1
       = (rh, wm3) /\
     reply_with_agent C uid s w =
       ([EvExecuteAgent (wm_of s w);
         EvAddTexts Episodic [text (user_message_json wm1)]
           [episodic_metadata uid (co_clock C (ticks w))];
         EvHook (before_cat_sends_message (build_final_output uid cm wm1)) wm1],
        match rh with
        | Ok final_output => Ok (ChatOutput final_output)
        | Raise e => Raise e
        end, w') /\
     vectors w' =
       vectors (with_episodic_text (text (user_message_json wm1))
                  (episodic_metadata uid (co_clock C (ticks w))) w) /\
     history (wm_of s w') =
       match rh with
       | Ok final_output =>
           history wm3 ++
             [human_turn (text (user_message_json wm1)) (co_clock C (S (ticks w)));
              ai_turn final_output (co_clock C (S (S (ticks w))))]
       | Raise _ => history wm3
       end).
Proof.
  destruct (co_execute_agent C (wm_of s w)) as [ra wm1] eqn:Eagent.
  assert (Hrun : forall cm, agent_yields ra wm1 cm ->
    exists cm wm1 rh wm3 w',
     co_execute_hook C (before_cat_sends_message (build_final_output uid cm wm1)) wm1
       = (rh, wm3) /\
     reply_with_agent C uid s w =
       ([EvExecuteAgent (wm_of s w);
         EvAddTexts Episodic [text (user_message_json wm1)]
           [episodic_metadata uid (co_clock C (ticks w))];
         EvHook (before_cat_sends_message (build_final_output uid cm wm1)) wm1],
        match rh with
        | Ok final_output => Ok (ChatOutput final_output)
        | Raise e => Raise e
        end, w') /\
     vectors w' =
       vectors (with_episodic_text (text (user_message_json wm1))
                  (episodic_metadata uid (co_clock C (ticks w))) w) /\
     history (wm_of s w') =
       match rh with
       | Ok final_output =>
           history wm3 ++
             [human_turn (text (user_message_json wm1)) (co_clock C (S (ticks w)));
              ai_turn final_output (co_clock C (S (S (ticks w))))]
       | Raise _ => history wm3
       end).
  { intros cm Hy.
    destruct (co_execute_hook C (before_cat_sends_message (build_final_output uid cm wm1))
                wm1) as [rh wm3] eqn:Ehook.
    destruct (reply_with_agent_run C uid s w ra wm1 cm rh wm3 Eagent Hy Ehook)
      as (w' & E & Hv & Hh).
    exists cm, wm1, rh, wm3, w'. auto. }
  destruct ra as [cm|e].
  - right. apply (Hrun cm). reflexivity.
  - destruct (contains parse_error_marker (exn_message e)) eqn:Em.
    + right. apply (Hrun (fallback_cat_message wm1 (exn_message e))). now split.
    + left. exists e, wm1. now apply reply_with_agent_fatal.
Qed.

Section Requests.

Variable C : collaborators.

(** X9.  [__call__] never returns the error output: a run that returns
    returns a chat output.  (The failure handler of the recall ends with the
    exception of [traceback.print_exc(e)].) *)
Theorem error_output_never_returned (incoming : message) (w : world) (err : error_output) :
  outcome (__call__ C incoming w) <> Ok (ErrorOutput err).
Proof.
  unfold __call__, bind, outcome.
  destruct (read_message C incoming (resolved_user_id incoming) w)
    as [[evs1 [[]|e1]] w1] eqn:Eread;
    unfold resolved_user_id in Eread; rewrite Eread; cbn [fst snd];
    [|discriminate].
  fold (resolved_user_id incoming).
  unfold recall_and_reply, bind, attempt.
  destruct (recall_relevant_memories_to_working_memory C _ w1)
    as [[evs2 [[]|e2]] w2]; cbn [fst snd]; [|discriminate].
  destruct (reply_with_agent_cases C (resolved_user_id incoming)
              (resolved_user_id incoming) w2)
    as [(e & wm1 & E) | (cm & wm1 & rh & wm3 & w3 & _ & E & _)];
    rewrite E; cbn [fst snd]; [discriminate|].
  destruct rh; discriminate.
Qed.

End Requests.

(** ** The shape of a request *)

Section RequestShape.

Variable C : collaborators.

(** The run of [read_message]. *)
Lemma read_message_run (incoming : message) (uid : str) (w : world) :
  let m0 := {| text := text incoming; user_id := Some uid |} in
  exists rest r w1,
    read_message C incoming uid w =
      (EvHook (before_cat_reads_message m0) (set_user_message_json m0 (wm_of uid w))
       :: rest, r, w1) /\
    forallb ingestion_event rest = true /\
    (r = Ok tt ->
     length (text (user_message_json (wm_of uid w1))) <= MAX_TEXT_INPUT).
Proof.
  intros m0. unfold read_message.
  destruct (get_working_memory_run uid w) as (wa & Eget & Hsame).
  rewrite (bind_ok _ _ _ _ _ _ Eget). cbn [app].
  unfold split_oversized_text. run. rewrite !Hsame. fold m0.
  step.
  2:{ eexists _, _, _. split; [reflexivity|]. split; [reflexivity | discriminate]. }
  destruct (Nat.ltb_spec MAX_TEXT_INPUT
              (length (text (user_message_json (set_user_message_json a wm))))) as [Hlt|Hle];
    run.
  2:{ eexists _, _, _. split; [reflexivity|]. split; [reflexivity|].
      intros _. rewrite ?wm_of_set_wm. exact Hle. }
  assert (Hcut : forall txt, length (firstn (split_index txt) txt) <= MAX_TEXT_INPUT).
  { intros txt. pose proof (firstn_le_length (split_index txt) txt).
    pose proof (split_index_range txt). lia. }
  match goal with
  | |- context [co_string_to_docs ?C ?a ?b] => destruct (co_string_to_docs C a b); run
  end.
  2:{ eexists _, _, _. split; [reflexivity|]. split; [reflexivity | discriminate]. }
  match goal with
  | |- context [co_store_documents ?C ?a ?b ?c] =>
      destruct (co_store_documents C a b c) as [[[]|e] c']; run
  end.
  - eexists _, _, _. split; [reflexivity|]. split; [reflexivity|]. intros _. rewrite wm_of_set_vectors, wm_of_set_wm. apply Hcut.
  - eexists _, _, _. split; [reflexivity|]. split; [reflexivity | discriminate].
Qed.

(** The only query the recall puts to the [cat_recall_query] hook is the
    working text. *)
Lemma recall_query_hook_input (s : str) (w : world) (q : str) (wm : working_memory) :
  In (EvHook (cat_recall_query q) wm)
     (events_of (recall_relevant_memories_to_working_memory C s w)) ->
  q = text (user_message_json (wm_of s w)).
Proof.
  unfold recall_relevant_memories_to_working_memory, events_of. run.
  repeat step; cbn; intros Hin; in_cases Hin; congruence.
Qed.

(** X10.  The calls of a request come in one order: first the pre-read hook,
    on the inbound text with the user id of the request filled in, before
    anything else; then the calls to the rabbit hole; then those of the
    recall; then nothing, or the agent alone, or the agent, one write to the
    episodic collection and the pre-send hook, after which nothing is
    called.  A request that returns made all three of the last calls. *)
Theorem request_call_order (incoming : message) (w : world) :
  let uid := resolved_user_id incoming in
  let m0 := {| text := text incoming; user_id := Some uid |} in
  exists ingest recalls tail,
    events_of (__call__ C incoming w) =
      EvHook (before_cat_reads_message m0) (set_user_message_json m0 (wm_of uid w))
        :: ingest ++ recalls ++ tail /\
    forallb ingestion_event ingest = true /\
    forallb recall_event recalls = true /\
    (tail = [] \/
     (exists wm, tail = [EvExecuteAgent wm]) \/
     (exists wm wm1 cm now,
        tail = [EvExecuteAgent wm;
                EvAddTexts Episodic [text (user_message_json wm1)]
                  [episodic_metadata uid now];
                EvHook (before_cat_sends_message (build_final_output uid cm wm1)) wm1])) /\
    (forall out, outcome (__call__ C incoming w) = Ok out -> length tail = 3).
Proof.
  intros uid m0. unfold __call__. fold (resolved_user_id incoming). fold uid.
  destruct (read_message_run incoming uid w) as (rest & r & w1 & E & Hing & _).
  fold m0 in E. unfold bind, events_of, outcome. rewrite E.
  destruct r as [[]|e]; cbn [fst snd].
  2:{ exists rest, [], []. rewrite ?app_nil_r.
      repeat split; [assumption | now left | discriminate]. }
  unfold recall_and_reply, bind, attempt.
  pose proof (recall_events C uid w1) as Hrec. unfold events_of in Hrec.
  destruct (recall_relevant_memories_to_working_memory C uid w1)
    as [[evs2 [[]|e2]] w2]; cbn [fst snd] in *.
  2:{ cbn. exists rest, evs2, []. rewrite ?app_nil_r.
      repeat split; [assumption | assumption | now left | discriminate]. }
  destruct (reply_with_agent_cases C uid uid w2)
    as [(e & wm1 & Er) | (cm & wm1 & rh & wm3 & w3 & _ & Er & _)];
    rewrite Er; cbn [fst snd].
  - exists rest, evs2, [EvExecuteAgent (wm_of uid w2)].
    repeat split; [assumption | assumption | | discriminate].
    right. left. now eexists.
  - eexists rest, evs2, _. split; [reflexivity|].
    repeat split; [assumption | assumption |].
    right. right. now eexists _, _, _, _.
Qed.

(** X11.  No request puts to the [cat_recall_query] hook a query longer
    than [MAX_TEXT_INPUT], whatever the length of the inbound text and
    whatever the pre-read hook made of it. *)
Theorem recall_query_within_limit (incoming : message) (w : world)
    (q : str) (wm : working_memory) :
  In (EvHook (cat_recall_query q) wm) (events_of (__call__ C incoming w)) ->
  length q <= MAX_TEXT_INPUT.
Proof.
  unfold __call__. fold (resolved_user_id incoming).
  set (uid := resolved_user_id incoming).
  destruct (read_message_run incoming uid w) as (rest & r & w1 & E & Hing & Hlen).
  unfold bind, events_of. rewrite E.
  assert (Hrest : ~ In (EvHook (cat_recall_query q) wm) rest).
  { intros Hin. rewrite forallb_forall in Hing. now apply Hing in Hin. }
  destruct r as [[]|e]; cbn [fst snd].
  2:{ rewrite ?app_nil_r. intros [Hin|Hin]; [discriminate | contradiction]. }
  specialize (Hlen eq_refl).
  unfold recall_and_reply, bind, attempt.
  pose proof (recall_query_hook_input uid w1 q wm) as Hq. unfold events_of in Hq.
  destruct (recall_relevant_memories_to_working_memory C uid w1)
    as [[evs2 [[]|e2]] w2]; cbn [fst snd] in *.
  2:{ cbn. rewrite ?app_nil_r. intros [Hin|Hin]; [discriminate|].
      apply in_app_or in Hin as [Hin|Hin]; [contradiction|].
      rewrite (Hq Hin). exact Hlen. }
  destruct (reply_with_agent_cases C uid uid w2)
    as [(e & wm1 & Er) | (cm & wm1 & rh & wm3 & w3 & _ & Er & _)];
    rewrite Er; cbn [fst snd]; intros [Hin|Hin]; try discriminate;
    (apply in_app_or in Hin as [Hin|Hin]; [contradiction|]);
    (apply in_app_or in Hin as [Hin|Hin]; [rewrite (Hq Hin); exact Hlen|]);
    cbn in Hin; in_cases Hin.
  all: try (injection Hin as <- <-; eexists _, _; split;
            [ cbn; repeat (first [left; reflexivity | right])
            | unfold tier_hook_result;
              match goal with
              | H : co_execute_hook _ _ _ = _ |- _ => rewrite H; reflexivity
              end ]).
  all: injection Hin as <-; destruct t; eexists; (split;
         [ cbn; repeat (first [left; reflexivity | right]) | cbn; assumption ]).
Qed.

End RequestShape.

Lemma recall_query_within_limit_witness :
  In (EvHook (cat_recall_query (firstn 480 Scenario.text_650)) Setup.cut_memory)
     (events_of (__call__ Scenario.quiet Setup.long_message Scenario.empty_world)) /\
  length (firstn 480 Scenario.text_650) <= MAX_TEXT_INPUT.
Proof.
  assert (H : In (EvHook (cat_recall_query (firstn 480 Scenario.text_650))
                    Setup.cut_memory)
                (events_of (__call__ Scenario.quiet Setup.long_message
                              Scenario.empty_world))).
  { vm_compute. do 3 right. left. reflexivity. }
  split; [exact H|].
  exact (recall_query_within_limit Scenario.quiet Setup.long_message
           Scenario.empty_world _ _ H).
Defined.

(** ** The recall, collection by collection *)

Section RecallSlots.

Variable C : collaborators.


End RecallSlots.

(** ** What a returned request leaves behind *)

Section Sinks.

Variable C : collaborators.

(** X13.  A request that returns the chat output [final_output] has written
    one text to the episodic collection, after the texts that were there,
    and that text is the message of the Human turn it leaves in the
    history, followed by the AI turn of [final_output]: the memory and the
    history record the same user text, also when the pre-send hook rewrites
    the working memory. *)
Theorem returned_request_records (incoming : message) (w : world)
    (final_output : chat_output) :
  outcome (__call__ C incoming w) = Ok (ChatOutput final_output) ->
  let uid := resolved_user_id incoming in
  let w' := world_after (__call__ C incoming w) in
  exists user_message earlier t1 t2,
    stored_texts (episodic (vectors w')) =
      stored_texts (episodic (vectors w)) ++ [user_message] /\
    history (wm_of uid w') =
      earlier ++ [human_turn user_message t1; ai_turn final_output t2].
Proof.
  intros Hout uid w'.
  pose proof (preserves_read_message C uid _ (episodic_frame uid) incoming w) as Hread.
  revert Hout. unfold w', __call__. fold (resolved_user_id incoming). fold uid.
  unfold bind, outcome, world_after in *.
  destruct (read_message C incoming uid w) as [[evs1 [[]|e1]] w1]; cbn [fst snd] in *;
    [|discriminate].
  pose proof (preserves_recall C uid _ (episodic_frame uid) w1) as Hrecall.
  unfold recall_and_reply, bind, attempt, world_after in *.
  destruct (recall_relevant_memories_to_working_memory C uid w1)
    as [[evs2 [[]|e2]] w2]; cbn [fst snd] in *; [|discriminate].
  rewrite <- Hread, <- Hrecall.
  destruct (reply_with_agent_cases C uid uid w2)
    as [(e & wm1 & E) | (cm & wm1 & rh & wm3 & w3 & _ & E & Hv & Hh)];
    rewrite E; cbn [fst snd]; [discriminate|].
  destruct rh as [fo|e]; [|discriminate].
  intros Hout. injection Hout as ->.
  eexists (text (user_message_json wm1)), (history wm3), _, _.
  split; [|exact Hh].
  rewrite Hv. unfold with_episodic_text, store_texts, stored_texts.
  autorewrite with world. unfold set_collection. cbn [episodic points].
  rewrite map_app. reflexivity.
Qed.

End Sinks.

Lemma returned_request_records_witness :
  outcome (__call__ Scenario.quiet Scenario.hi_message Scenario.empty_world)
    = Ok (ChatOutput Scenario.hello_output) /\
  exists user_message earlier t1 t2,
    stored_texts
      (episodic (vectors (world_after
         (__call__ Scenario.quiet Scenario.hi_message Scenario.empty_world)))) =
      stored_texts (episodic (vectors Scenario.empty_world)) ++ [user_message] /\
    history
      (wm_of (resolved_user_id Scenario.hi_message)
         (world_after
            (__call__ Scenario.quiet Scenario.hi_message Scenario.empty_world))) =
      earlier ++ [human_turn user_message t1; ai_turn Scenario.hello_output t2].
Proof.
  assert (H : outcome (__call__ Scenario.quiet Scenario.hi_message Scenario.empty_world)
                = Ok (ChatOutput Scenario.hello_output)) by (vm_compute; reflexivity).
  split; [exact H|].
  exact (returned_request_records Scenario.quiet Scenario.hi_message
           Scenario.empty_world Scenario.hello_output H).
Defined.

(** ** The tool index as a multiset *)

Lemma count_str_app (d : str) (l1 l2 : list str) :
  count_str d (l1 ++ l2) = count_str d l1 + count_str d l2.
Proof. unfold count_str. now rewrite filter_app, length_app. Qed.

Lemma count_str_absent (d : str) (l : list str) :
  str_in d l = false -> count_str d l = 0.
Proof.
  intros H. unfold count_str. rewrite filter_none; [reflexivity|].
  intros x Hx. destruct (str_eqb d x) eqn:E; [|reflexivity].
  apply str_eqb_eq in E. subst x. apply str_in_false in H. contradiction.
Qed.

(** Counting [d] among the [f]-images of the elements kept by a filter that
    looks at the image only. *)
Lemma count_str_filter {A} (f : A -> str) (g : str -> bool) (d : str) (l : list A) :
  count_str d (map f (filter (fun x => g (f x)) l)) =
    if g d then count_str d (map f l) else 0.
Proof.
  unfold count_str. induction l as [|x l IH]; [now destruct (g d)|].
  cbn [filter map]. destruct (g (f x)) eqn:Eg; cbn [map filter].
  - destruct (str_eqb d (f x)) eqn:E; cbn [length].
    + apply str_eqb_eq in E. rewrite IH, E, Eg. reflexivity.
    + exact IH.
  - rewrite IH. destruct (str_eqb d (f x)) eqn:E; [|reflexivity].
    apply str_eqb_eq in E. rewrite E, Eg. reflexivity.
Qed.

Lemma tool_points_below C i n ts p :
  In p (tool_points C i n ts) -> (pt_id p < i + N.of_nat (length ts))%N.
Proof.
  revert i n. induction ts as [|t ts IH]; intros i n; [easy|].
  cbn [tool_points length]. intros [<-|H]; [cbn; lia|].
  apply IH in H. lia.
Qed.

Lemma tool_points_NoDup C i n ts : NoDup (map pt_id (tool_points C i n ts)).
Proof.
  revert i n. induction ts as [|t ts IH]; intros i n; [constructor|].
  cbn [tool_points map pt_id]. constructor; [|apply IH].
  intros Hin. apply in_map_iff in Hin as (p & E & Hp).
  apply tool_points_ids in Hp. lia.
Qed.

Section ToolIndexContents.

Variable C : collaborators.

(** With pairwise distinct ids, deleting the stale ids keeps the records
    whose description is live, and every new record. *)
Lemma embed_tools_points_by_description (w : world) :
  wf_collection (procedural (vectors w)) ->
  let live := map (co_augment_tool C) (tools w) in
  let c := procedural (vectors w) in
  let new := missing_tools (map point_description (points c)) live in
  points (procedural (vectors (world_after (embed_tools C w)))) =
    filter (fun p => str_in (point_description p) (map tool_description live)) (points c)
      ++ tool_points C (next_id c) (ticks w) new.
Proof.
  intros [Hnd Hlt] live c new. rewrite embed_tools_points. fold live c new.
  set (stale := stale_points (map tool_description live) (points c)).
  assert (Hstale : forall q, In q stale <->
            In q (points c) /\ str_in (point_description q) (map tool_description live)
                               = false).
  { intros q. unfold stale, stale_points. rewrite filter_In.
    now rewrite negb_true_iff. }
  rewrite filter_app. f_equal.
  - apply filter_ext_in. intros p Hp.
    destruct (str_in (point_description p) (map tool_description live)) eqn:E.
    + apply negb_true_iff.
      destruct (id_in (pt_id p) (map pt_id stale)) eqn:Eid; [|reflexivity].
      apply id_in_In, in_map_iff in Eid as (q & Eq & Hq).
      apply Hstale in Hq as [Hq Hnot].
      assert (q = p) by (apply (NoDup_map_eq pt_id (points c)); assumption).
      subst q. congruence.
    + apply negb_false_iff, id_in_In, in_map. apply Hstale. now split.
  - apply filter_all. intros p Hp. apply negb_true_iff.
    destruct (id_in (pt_id p) (map pt_id stale)) eqn:Eid; [|reflexivity].
    apply id_in_In, in_map_iff in Eid as (q & Eq & Hq).
    apply Hstale in Hq as [Hq _]. apply Hlt in Hq.
    apply tool_points_ids in Hp. fold c in Hq. lia.
Qed.

(** X14.  How many records hold a description [d] after [embed_tools]:
    none when no live tool has [d]; as many as before when a record held
    [d]; and otherwise one for each live tool with the description [d], so
    that live tools sharing a new description are each persisted. *)
Theorem embed_tools_description_count (w : world) (d : str) :
  wf_collection (procedural (vectors w)) ->
  let live := map tool_description (map (co_augment_tool C) (tools w)) in
  let persisted := stored_texts (procedural (vectors w)) in
  count_str d (stored_texts (procedural (vectors (world_after (embed_tools C w))))) =
    if str_in d live
    then if str_in d persisted then count_str d persisted else count_str d live
    else 0.
Proof.
  intros Hwf live persisted. unfold stored_texts in *.
  change (map (fun p => page_content (payload p))) with (map point_description) in *.
  rewrite (embed_tools_points_by_description w Hwf).
  rewrite map_app, count_str_app, tool_points_descriptions.
  fold live. fold persisted.
  rewrite (count_str_filter point_description (fun x => str_in x live)).
  unfold missing_tools.
  rewrite (count_str_filter tool_description (fun x => negb (str_in x persisted))).
  fold live. fold persisted.
  destruct (str_in d live) eqn:El, (str_in d persisted) eqn:Ep; cbn [negb].
  - lia.
  - rewrite (count_str_absent _ _ Ep). lia.
  - reflexivity.
  - now rewrite (count_str_absent _ _ El).
Qed.

(** X15.  [embed_tools] keeps the procedural collection well formed (ids
    pairwise distinct and below the next fresh id), so that a later run
    finds what it needs, and it writes to nothing else: the episodic and
    declarative collections and the working memories are as before, and the
    clock is read once for each upsert. *)
Theorem embed_tools_keeps_store (w : world) :
  wf_collection (procedural (vectors w)) ->
  let w' := world_after (embed_tools C w) in
  wf_collection (procedural (vectors w')) /\
  episodic (vectors w') = episodic (vectors w) /\
  declarative (vectors w') = declarative (vectors w) /\
  working_memory_list w' = working_memory_list w /\
  ticks w' = ticks w + length (filter is_add_texts (events_of (embed_tools C w))).
Proof.
  intros Hwf w'.
  set (live := map (co_augment_tool C) (tools w)).
  set (c := procedural (vectors w)).
  set (new := missing_tools (map point_description (points c)) live).
  assert (Hnext : next_id (procedural (vectors w')) =
                    (next_id c + N.of_nat (length new))%N).
  { unfold w'. rewrite embed_tools_run. unfold world_after. cbn [snd].
    autorewrite with world. fold live c new.
    destruct (stale_points (map tool_description live) (points c)); reflexivity. }
  split; [|unfold w'; rewrite embed_tools_run; unfold world_after, events_of;
           cbn [fst snd]; autorewrite with world; repeat split].
  - destruct Hwf as [Hnd Hlt]. split.
    + unfold w'. rewrite embed_tools_points. fold live c new.
      apply NoDup_map_filter. rewrite map_app. apply NoDup_app.
      * exact Hnd.
      * apply tool_points_NoDup.
      * intros i Hi Hin. apply in_map_iff in Hi as (p & <- & Hp).
        apply in_map_iff in Hin as (q & E & Hq).
        apply Hlt in Hp. apply tool_points_ids in Hq. fold c in Hp. lia.
    + intros p Hp. rewrite Hnext. unfold w' in Hp.
      rewrite embed_tools_points in Hp. fold live c new in Hp.
      apply filter_In in Hp as [Hp _]. apply in_app_or in Hp as [Hp|Hp].
      * apply Hlt in Hp. fold c in Hp. lia.
      * now apply tool_points_below in Hp.
  - fold live c new. cbn [filter is_add_texts]. rewrite filter_app.
    destruct (tool_upserts_kind C (ticks w) new) as [_ ->].
    rewrite length_app, tool_upserts_length.
    destruct (stale_points (map tool_description live) (points c));
      cbn [filter is_add_texts length]; lia.
Qed.

End ToolIndexContents.

Lemma embed_tools_description_count_witness :
  wf_collection (procedural (vectors Setup.twin_world)) /\
  count_str (py "D")
    (stored_texts
       (procedural (vectors (world_after (embed_tools Scenario.quiet Setup.twin_world)))))
    = 2.
Proof.
  assert (Hwf : wf_collection (procedural (vectors Setup.twin_world))).
  { split; [constructor | intros p []]. }
  split; [exact Hwf|].
  apply (eq_trans
           (embed_tools_description_count Scenario.quiet Setup.twin_world (py "D") Hwf)).
  vm_compute. reflexivity.
Defined.

Lemma embed_tools_keeps_store_witness :
  wf_collection (procedural (vectors Scenario.abc_world)) /\
  wf_collection
    (procedural (vectors (world_after (embed_tools Scenario.quiet Scenario.abc_world)))) /\
  episodic (vectors (world_after (embed_tools Scenario.quiet Scenario.abc_world)))
    = episodic (vectors Scenario.abc_world) /\
  declarative (vectors (world_after (embed_tools Scenario.quiet Scenario.abc_world)))
    = declarative (vectors Scenario.abc_world) /\
  working_memory_list (world_after (embed_tools Scenario.quiet Scenario.abc_world))
    = working_memory_list Scenario.abc_world /\
  ticks (world_after (embed_tools Scenario.quiet Scenario.abc_world))
    = ticks Scenario.abc_world
      + length (filter is_add_texts
                  (events_of (embed_tools Scenario.quiet Scenario.abc_world))).
Proof.
  split; [exact abc_world_wf|].
  exact (embed_tools_keeps_store Scenario.quiet Scenario.abc_world abc_world_wf).
Defined.

(** ** A rabbit hole that fails *)

Section Overflow.

Variable C : collaborators.

(** X16.  When the text that the pre-read hook returns is longer than
    [MAX_TEXT_INPUT] and the rabbit hole fails to read the part beyond the
    cut, the request ends with that exception after these two calls: the
    documents are not stored, nothing is recalled, the agent is not run
    and the collections are as before.  The working text is cut all the
    same. *)
Theorem overflow_failure_aborts (incoming : message) (w : world)
    (m : message) (wm1 : working_memory) (e : exn) :
  let uid := resolved_user_id incoming in
  let m0 := {| text := text incoming; user_id := Some uid |} in
  let index := split_index (text m) in
  co_execute_hook C (before_cat_reads_message m0)
    (set_user_message_json m0 (wm_of uid w)) = (Ok m, wm1) ->
  MAX_TEXT_INPUT < length (text m) ->
  co_string_to_docs C (skipn index (text m)) (py "text/plain") = Raise e ->
  exists w',
    __call__ C incoming w =
      ([EvHook (before_cat_reads_message m0) (set_user_message_json m0 (wm_of uid w));
        EvStringToDocs (skipn index (text m)) (py "text/plain")],
       Raise e, w') /\
    text (user_message_json (wm_of uid w')) = firstn index (text m) /\
    vectors w' = vectors w /\
    history (wm_of uid w') = history wm1.
Proof.
  intros uid m0 index Hhook Hlen Hdocs.
  unfold __call__. fold (resolved_user_id incoming). fold uid.
  unfold read_message.
  destruct (get_working_memory_run uid w) as (wa & Eget & Hsame).
  assert (Hv : vectors wa = vectors w).
  { revert Eget. unfold get_working_memory.
    destruct (find_wm uid (working_memory_list w)); cbn; intros E;
      injection E; intros; subst wa; reflexivity. }
  rewrite bind_assoc, (bind_ok _ _ _ _ _ _ Eget). cbn [app].
  unfold split_oversized_text. run. rewrite !Hsame. fold m0.
  change (user_message_json (set_user_message_json m0 (wm_of uid w))) with m0.
  rewrite Hhook. run.
  change (user_message_json (set_user_message_json m wm1)) with m.
  apply Nat.ltb_lt in Hlen. rewrite Hlen. run.
  change (user_message_json (set_user_message_json m wm1)) with m. fold index.
  rewrite Hdocs. run.
  eexists. split; [reflexivity|].
  autorewrite with world. rewrite ?wm_of_set_wm. repeat split. exact Hv.
Qed.

End Overflow.

Lemma overflow_failure_aborts_witness :
  co_execute_hook Setup.rabbit_hole_down
    (before_cat_reads_message Setup.long_message)
    (set_user_message_json Setup.long_message (wm_of Scenario.user Scenario.empty_world))
    = (Ok Setup.long_message,
       set_user_message_json Setup.long_message
         (wm_of Scenario.user Scenario.empty_world)) /\
  MAX_TEXT_INPUT < length (text Setup.long_message) /\
  outcome (__call__ Setup.rabbit_hole_down Setup.long_message Scenario.empty_world)
    = Raise Scenario.boom /\
  length (events_of
            (__call__ Setup.rabbit_hole_down Setup.long_message Scenario.empty_world))
    = 2.
Proof.
  assert (Hlen : MAX_TEXT_INPUT < length (text Setup.long_message)).
  { apply Nat.ltb_lt. vm_compute. reflexivity. }
  split; [reflexivity|]. split; [exact Hlen|].
  destruct (overflow_failure_aborts Setup.rabbit_hole_down Setup.long_message
              Scenario.empty_world Setup.long_message
              (set_user_message_json Setup.long_message
                 (wm_of Scenario.user Scenario.empty_world))
              Scenario.boom eq_refl Hlen eq_refl) as (w' & E & _).
  rewrite E. split; reflexivity.
Defined.
